(** * Label2DView: coordinate transforms, picking and zoom/pan of the 2D label canvas

    A shallow embedding of [app/src/js/components/label2d_view.tsx].

    - The class [Label2DView] becomes a record of its fields; every method is a
      function that takes the record ([this]) and returns the updated record.
      The long method [updateScale] is cut into the blocks its comments name.
    - JavaScript numbers are kept abstract behind the interface [Number]; the
      methods are written once against it.  Two instances are given: exact
      rationals [Q], over which the general statements are proved, and IEEE-754
      binary64 ([PrimFloat.float], the representation JavaScript uses), over
      which the methods are evaluated on concrete inputs.  Division by zero in
      the [Q] instance yields 0 where JavaScript yields an infinity or NaN, so
      every statement that depends on a quotient assumes its divisor non-zero.
    - The DOM elements are records of the attributes the component writes
      (scroll position, canvas resolution and style).  An assignment to
      [scrollLeft] or [scrollTop] stores the assigned value.
    - The browser is an environment [Env]: layout queries
      ([getBoundingClientRect], [offsetTop], ...) are unknown functions of the
      DOM elements the component holds, pixel reads are an unknown function of
      the calls made so far on the collaborators, and the application store
      (viewer configuration, current image) is read from the environment.
    - Calls on collaborators ([this._labels], the 2D contexts) are appended to
      the trace [calls].
    - [Vector2D] and the colour codec of [drawable/util] are not among the
      sources and follow the spec.
    - The viewer of [app/src/js/components/point_cloud_viewer.tsx] is embedded
      in the same way, in the module [PointCloudViewer]. *)

From Stdlib Require Import ZArith QArith Qminmax Qabs Lia List Bool.
From Stdlib Require Import Sorting.Permutation Sorting.Sorted.
From Stdlib Require Floats.
From stdpp Require Import gmap strings.
Import ListNotations.

Set Default Proof Using "Type".

(** ** Numbers *)

(** The operations of JavaScript's [number] that the component uses. *)
Class Number (num : Type) : Type := {
  lit : Z -> num;                    (* an integer literal: 0, 1, 2, 3.0, -1 *)
  num_add : num -> num -> num;
  num_sub : num -> num -> num;
  num_mul : num -> num -> num;
  num_div : num -> num -> num;
  num_ltb : num -> num -> bool;      (* a < b *)
  num_leb : num -> num -> bool;      (* a <= b *)
  Math_min : num -> num -> num;
  Math_max : num -> num -> num
}.

Declare Scope num_scope.
Delimit Scope num_scope with num.
Infix "+" := num_add : num_scope.
Infix "-" := num_sub : num_scope.
Infix "*" := num_mul : num_scope.
Infix "/" := num_div : num_scope.
Notation "a <? b" := (num_ltb a b) : num_scope.
Notation "a <=? b" := (num_leb a b) : num_scope.
(* a > b and a >= b evaluate as b < a and b <= a *)
Notation "a >? b" := (num_ltb b a) : num_scope.
Notation "a >=? b" := (num_leb b a) : num_scope.

(** Truthiness of a number in a condition ([if (w && h)]): neither zero nor NaN. *)
Definition truthy {num} `{Number num} (a : num) : bool :=
  (lit 0 <? a)%num || (a <? lit 0)%num.

(** *** Exact rationals *)

Definition Qltb (a b : Q) : bool := negb (Qle_bool b a).

#[export] Instance Q_Number : Number Q := {|
  lit := inject_Z;
  num_add := Qplus;
  num_sub := Qminus;
  num_mul := Qmult;
  num_div := Qdiv;
  num_ltb := Qltb;
  num_leb := Qle_bool;
  Math_min := Qmin;
  Math_max := Qmax
|}.

(** *** IEEE-754 binary64 *)

Definition float_lit (z : Z) : PrimFloat.float :=
  match z with
  | Z0 => PrimFloat.zero
  | Zpos _ => PrimFloat.of_uint63 (Uint63.of_Z z)
  | Zneg _ => PrimFloat.opp (PrimFloat.of_uint63 (Uint63.of_Z (Z.opp z)))
  end.

(* Math.min / Math.max: NaN if either argument is NaN; -0 is below +0 *)
Definition float_min (a b : PrimFloat.float) : PrimFloat.float :=
  if PrimFloat.is_nan a || PrimFloat.is_nan b then PrimFloat.nan
  else if PrimFloat.ltb a b then a
  else if PrimFloat.ltb b a then b
  else if PrimFloat.get_sign a then a else b.

Definition float_max (a b : PrimFloat.float) : PrimFloat.float :=
  if PrimFloat.is_nan a || PrimFloat.is_nan b then PrimFloat.nan
  else if PrimFloat.ltb a b then b
  else if PrimFloat.ltb b a then a
  else if PrimFloat.get_sign a then b else a.

#[export] Instance float_Number : Number PrimFloat.float := {|
  lit := float_lit;
  num_add := PrimFloat.add;
  num_sub := PrimFloat.sub;
  num_mul := PrimFloat.mul;
  num_div := PrimFloat.div;
  num_ltb := PrimFloat.ltb;
  num_leb := PrimFloat.leb;
  Math_min := float_min;
  Math_max := float_max
|}.

(** ** [mode] and the control-colour codec *)

(** [Array.prototype.sort(comparefn)] as ECMAScript (2019 and later) defines
    it: the elements are read out of the array first, so [comparefn] sees the
    array as it was when [sort] was called, and the sort is stable.  The
    embedding is a stable insertion sort: an element is placed before the first
    later element that does not compare below it. *)
Fixpoint sort_insert (comparefn : Z -> Z -> Z) (a : Z) (sorted : list Z) : list Z :=
  match sorted with
  | [] => [a]
  | b :: rest =>
      if (comparefn a b <=? 0)%Z then a :: sorted
      else b :: sort_insert comparefn a rest
  end.

Definition Array_sort (comparefn : Z -> Z -> Z) (arr : list Z) : list Z :=
  fold_right (sort_insert comparefn) [] arr.

(** [Array.prototype.pop]: the last element ([None] for [undefined]) and the
    array that is left. *)
Definition Array_pop (arr : list Z) : option Z * list Z :=
  match arr with
  | [] => (None, [])
  | a :: rest => (Some (List.last arr a), removelast arr)
  end.

(** [arr.filter((v) => v === a).length] *)
Definition occurrences (arr : list Z) (a : Z) : Z :=
  Z.of_nat (length (List.filter (fun v => Z.eqb v a) arr)).

(** [mode], with the array it leaves behind: [sort] and [pop] work in place. *)
Definition mode_in_place (arr : list Z) : option Z * list Z :=
  Array_pop
    (Array_sort (fun a b => (occurrences arr a - occurrences arr b)%Z) arr).

Definition mode (arr : list Z) : option Z := fst (mode_in_place arr).

(** Modelled from the spec: [rgbToIndex] of [drawable/util], which is not among
    the sources; the spec gives [index = r + g*256 + b*65536] for the three
    channels [(r, g, b)]. *)
Definition rgbToIndex (rgb : list Z) : Z :=
  (nth 0 rgb 0 + nth 1 rgb 0 * 256 + nth 2 rgb 0 * 65536)%Z.

(** Modelled from the spec: [decodeControlIndex] of [drawable/util], which is
    not among the sources; the spec gives [handleId = index & 0xFF] and
    [labelId = (index >> 8) - 1], returned as [[labelId, handleId]]. *)
Definition decodeControlIndex (index : Z) : Z * Z :=
  ((Z.shiftr index 8 - 1)%Z, Z.land index 255).

(** ** The component and its surroundings *)

Section Label2DView.
Context {num : Type} `{Number num}.
Local Open Scope num_scope.

(** Modelled from the spec: [Vector2D] of [math/vector2d], which is not among
    the sources; the spec has points [p] with two coordinates, which the class
    reads as [v.x], [v.y] or [v[0]], [v[1]]. *)
Record Vector2D : Type := { x : num; y : num }.

(** Modelled from the spec: [Vector2D.scale] of [math/vector2d], which is not
    among the sources; the spec gives [imageToCanvas] as
    [p * displayToImageRatio], "then additionally [* UP_RES_RATIO]". *)
Definition Vector2D_scale (s : num) (v : Vector2D) : Vector2D :=
  {| x := x v * s; y := y v * s |}.

(** Modelled from the spec: [Size2D] of [math/size2d], which is not among the
    sources; the spec gives [getCurrentImageSize() -> {width, height}]. *)
Record Size2D : Type := { size_width : num; size_height : num }.

(** A [DOMRect].  Rectangles returned by [getBoundingClientRect] have
    [left = x] and [top = y]. *)
Record DOMRect : Type :=
  { rect_x : num; rect_y : num; rect_width : num; rect_height : num }.
Definition rect_left (r : DOMRect) : num := rect_x r.
Definition rect_top (r : DOMRect) : num := rect_y r.

(** The parts of the DOM elements that the component writes.  [scrollLeft]
    and [scrollTop] hold the value last assigned to them; sizes set through
    [style] are kept as their number of pixels. *)
Record HTMLDivElement : Type := { scrollLeft : num; scrollTop : num }.

Record HTMLCanvasElement : Type := {
  canvas_width : num;
  canvas_height : num;
  style_width : num;
  style_height : num;
  style_left : num;
  style_top : num;
  style_right : string;
  style_bottom : string;
  style_cursor : string
}.

(** A 2D rendering context is an opaque handle: what is done to it is recorded
    in the trace of calls. *)
Inductive CanvasRenderingContext2D : Type := Context2D.

(** Which of the two canvases a [canvas] argument refers to. *)
Inductive CanvasRef : Type := TheControlCanvas | TheLabelCanvas.

Record MouseEvent : Type := { clientX : num; clientY : num; button : Z }.
(* MouseEvent.x and MouseEvent.y are aliases of clientX and clientY *)
Definition event_x (e : MouseEvent) : num := clientX e.
Definition event_y (e : MouseEvent) : num := clientY e.

Record ViewerConfigType : Type :=
  { viewScale : num; viewOffsetX : num; viewOffsetY : num }.

(** Calls made on the collaborators, in the order they are made. *)
Inductive Call : Type :=
| labels_onMouseDown (mousePos : Vector2D) (labelIndex handleIndex : Z)
| labels_onMouseUp (mousePos : Vector2D) (labelIndex handleIndex : Z)
| labels_onMouseMove (mousePos : Vector2D) (imageSize : Size2D)
    (labelIndex handleIndex : Z)
| labels_redraw (ratio : num)
| context_clearRect (canvas : CanvasRef) (w h : num)
| controlContext_scale (sx sy : num).

(** The fields of the class.  [_labels] is represented by the calls made on
    it; [_startGrabVisibleCoords] is [None] for the empty array. *)
Record Label2DView : Type := {
  labelContext : option CanvasRenderingContext2D;
  controlContext : option CanvasRenderingContext2D;
  labelCanvas : option HTMLCanvasElement;
  controlCanvas : option HTMLCanvasElement;
  display : option HTMLDivElement;
  background : option HTMLDivElement;
  scale : num;
  canvasHeight : num;
  canvasWidth : num;
  displayToImageRatio : num;
  _keyDownMap : gmap string bool;
  _isGrabbingImage : bool;
  _startGrabX : num;
  _startGrabY : num;
  _startGrabVisibleCoords : option Vector2D;
  calls : list Call
}.

(* display constants *)
Definition MAX_SCALE : num := lit 3.
Definition MIN_SCALE : num := lit 1.
Definition UP_RES_RATIO : num := lit 2.

(** The state the constructor leaves. *)
Definition constructor : Label2DView := {|
  labelContext := None; controlContext := None;
  labelCanvas := None; controlCanvas := None;
  display := None; background := None;
  scale := lit 1; canvasHeight := lit 0; canvasWidth := lit 0;
  displayToImageRatio := lit 1;
  _keyDownMap := ∅; _isGrabbingImage := false;
  _startGrabX := lit (-1); _startGrabY := lit (-1);
  _startGrabVisibleCoords := None; calls := []
|}.

(** *** Field assignments *)

Definition set_labelContext (v : option CanvasRenderingContext2D) (this : Label2DView) : Label2DView :=
{|
  labelContext := v; controlContext := controlContext this;
  labelCanvas := labelCanvas this; controlCanvas := controlCanvas this;
  display := display this; background := background this; scale := scale this;
  canvasHeight := canvasHeight this; canvasWidth := canvasWidth this;
  displayToImageRatio := displayToImageRatio this;
  _keyDownMap := _keyDownMap this; _isGrabbingImage := _isGrabbingImage this;
  _startGrabX := _startGrabX this; _startGrabY := _startGrabY this;
  _startGrabVisibleCoords := _startGrabVisibleCoords this; calls := calls this
|}.

Definition set_controlContext (v : option CanvasRenderingContext2D) (this : Label2DView) : Label2DView :=
{|
  labelContext := labelContext this; controlContext := v;
  labelCanvas := labelCanvas this; controlCanvas := controlCanvas this;
  display := display this; background := background this; scale := scale this;
  canvasHeight := canvasHeight this; canvasWidth := canvasWidth this;
  displayToImageRatio := displayToImageRatio this;
  _keyDownMap := _keyDownMap this; _isGrabbingImage := _isGrabbingImage this;
  _startGrabX := _startGrabX this; _startGrabY := _startGrabY this;
  _startGrabVisibleCoords := _startGrabVisibleCoords this; calls := calls this
|}.

Definition set_labelCanvas (v : option HTMLCanvasElement) (this : Label2DView) : Label2DView :=
{|
  labelContext := labelContext this; controlContext := controlContext this;
  labelCanvas := v; controlCanvas := controlCanvas this; display := display this;
  background := background this; scale := scale this;
  canvasHeight := canvasHeight this; canvasWidth := canvasWidth this;
  displayToImageRatio := displayToImageRatio this;
  _keyDownMap := _keyDownMap this; _isGrabbingImage := _isGrabbingImage this;
  _startGrabX := _startGrabX this; _startGrabY := _startGrabY this;
  _startGrabVisibleCoords := _startGrabVisibleCoords this; calls := calls this
|}.

Definition set_controlCanvas (v : option HTMLCanvasElement) (this : Label2DView) : Label2DView :=
{|
  labelContext := labelContext this; controlContext := controlContext this;
  labelCanvas := labelCanvas this; controlCanvas := v; display := display this;
  background := background this; scale := scale this;
  canvasHeight := canvasHeight this; canvasWidth := canvasWidth this;
  displayToImageRatio := displayToImageRatio this;
  _keyDownMap := _keyDownMap this; _isGrabbingImage := _isGrabbingImage this;
  _startGrabX := _startGrabX this; _startGrabY := _startGrabY this;
  _startGrabVisibleCoords := _startGrabVisibleCoords this; calls := calls this
|}.

Definition set_display (v : option HTMLDivElement) (this : Label2DView) : Label2DView :=
{|
  labelContext := labelContext this; controlContext := controlContext this;
  labelCanvas := labelCanvas this; controlCanvas := controlCanvas this;
  display := v; background := background this; scale := scale this;
  canvasHeight := canvasHeight this; canvasWidth := canvasWidth this;
  displayToImageRatio := displayToImageRatio this;
  _keyDownMap := _keyDownMap this; _isGrabbingImage := _isGrabbingImage this;
  _startGrabX := _startGrabX this; _startGrabY := _startGrabY this;
  _startGrabVisibleCoords := _startGrabVisibleCoords this; calls := calls this
|}.

Definition set_background (v : option HTMLDivElement) (this : Label2DView) : Label2DView :=
{|
  labelContext := labelContext this; controlContext := controlContext this;
  labelCanvas := labelCanvas this; controlCanvas := controlCanvas this;
  display := display this; background := v; scale := scale this;
  canvasHeight := canvasHeight this; canvasWidth := canvasWidth this;
  displayToImageRatio := displayToImageRatio this;
  _keyDownMap := _keyDownMap this; _isGrabbingImage := _isGrabbingImage this;
  _startGrabX := _startGrabX this; _startGrabY := _startGrabY this;
  _startGrabVisibleCoords := _startGrabVisibleCoords this; calls := calls this
|}.

Definition set_scale (v : num) (this : Label2DView) : Label2DView :=
{|
  labelContext := labelContext this; controlContext := controlContext this;
  labelCanvas := labelCanvas this; controlCanvas := controlCanvas this;
  display := display this; background := background this; scale := v;
  canvasHeight := canvasHeight this; canvasWidth := canvasWidth this;
  displayToImageRatio := displayToImageRatio this;
  _keyDownMap := _keyDownMap this; _isGrabbingImage := _isGrabbingImage this;
  _startGrabX := _startGrabX this; _startGrabY := _startGrabY this;
  _startGrabVisibleCoords := _startGrabVisibleCoords this; calls := calls this
|}.

Definition set_canvasHeight (v : num) (this : Label2DView) : Label2DView :=
{|
  labelContext := labelContext this; controlContext := controlContext this;
  labelCanvas := labelCanvas this; controlCanvas := controlCanvas this;
  display := display this; background := background this; scale := scale this;
  canvasHeight := v; canvasWidth := canvasWidth this;
  displayToImageRatio := displayToImageRatio this;
  _keyDownMap := _keyDownMap this; _isGrabbingImage := _isGrabbingImage this;
  _startGrabX := _startGrabX this; _startGrabY := _startGrabY this;
  _startGrabVisibleCoords := _startGrabVisibleCoords this; calls := calls this
|}.

Definition set_canvasWidth (v : num) (this : Label2DView) : Label2DView :=
{|
  labelContext := labelContext this; controlContext := controlContext this;
  labelCanvas := labelCanvas this; controlCanvas := controlCanvas this;
  display := display this; background := background this; scale := scale this;
  canvasHeight := canvasHeight this; canvasWidth := v;
  displayToImageRatio := displayToImageRatio this;
  _keyDownMap := _keyDownMap this; _isGrabbingImage := _isGrabbingImage this;
  _startGrabX := _startGrabX this; _startGrabY := _startGrabY this;
  _startGrabVisibleCoords := _startGrabVisibleCoords this; calls := calls this
|}.

Definition set_displayToImageRatio (v : num) (this : Label2DView) : Label2DView :=
{|
  labelContext := labelContext this; controlContext := controlContext this;
  labelCanvas := labelCanvas this; controlCanvas := controlCanvas this;
  display := display this; background := background this; scale := scale this;
  canvasHeight := canvasHeight this; canvasWidth := canvasWidth this;
  displayToImageRatio := v; _keyDownMap := _keyDownMap this;
  _isGrabbingImage := _isGrabbingImage this; _startGrabX := _startGrabX this;
  _startGrabY := _startGrabY this;
  _startGrabVisibleCoords := _startGrabVisibleCoords this; calls := calls this
|}.

Definition set_keyDownMap (v : gmap string bool) (this : Label2DView) : Label2DView :=
{|
  labelContext := labelContext this; controlContext := controlContext this;
  labelCanvas := labelCanvas this; controlCanvas := controlCanvas this;
  display := display this; background := background this; scale := scale this;
  canvasHeight := canvasHeight this; canvasWidth := canvasWidth this;
  displayToImageRatio := displayToImageRatio this; _keyDownMap := v;
  _isGrabbingImage := _isGrabbingImage this; _startGrabX := _startGrabX this;
  _startGrabY := _startGrabY this;
  _startGrabVisibleCoords := _startGrabVisibleCoords this; calls := calls this
|}.

Definition set_isGrabbingImage (v : bool) (this : Label2DView) : Label2DView :=
{|
  labelContext := labelContext this; controlContext := controlContext this;
  labelCanvas := labelCanvas this; controlCanvas := controlCanvas this;
  display := display this; background := background this; scale := scale this;
  canvasHeight := canvasHeight this; canvasWidth := canvasWidth this;
  displayToImageRatio := displayToImageRatio this;
  _keyDownMap := _keyDownMap this; _isGrabbingImage := v;
  _startGrabX := _startGrabX this; _startGrabY := _startGrabY this;
  _startGrabVisibleCoords := _startGrabVisibleCoords this; calls := calls this
|}.

Definition set_startGrabX (v : num) (this : Label2DView) : Label2DView :=
{|
  labelContext := labelContext this; controlContext := controlContext this;
  labelCanvas := labelCanvas this; controlCanvas := controlCanvas this;
  display := display this; background := background this; scale := scale this;
  canvasHeight := canvasHeight this; canvasWidth := canvasWidth this;
  displayToImageRatio := displayToImageRatio this;
  _keyDownMap := _keyDownMap this; _isGrabbingImage := _isGrabbingImage this;
  _startGrabX := v; _startGrabY := _startGrabY this;
  _startGrabVisibleCoords := _startGrabVisibleCoords this; calls := calls this
|}.

Definition set_startGrabY (v : num) (this : Label2DView) : Label2DView :=
{|
  labelContext := labelContext this; controlContext := controlContext this;
  labelCanvas := labelCanvas this; controlCanvas := controlCanvas this;
  display := display this; background := background this; scale := scale this;
  canvasHeight := canvasHeight this; canvasWidth := canvasWidth this;
  displayToImageRatio := displayToImageRatio this;
  _keyDownMap := _keyDownMap this; _isGrabbingImage := _isGrabbingImage this;
  _startGrabX := _startGrabX this; _startGrabY := v;
  _startGrabVisibleCoords := _startGrabVisibleCoords this; calls := calls this
|}.

Definition set_startGrabVisibleCoords (v : option Vector2D) (this : Label2DView) : Label2DView :=
{|
  labelContext := labelContext this; controlContext := controlContext this;
  labelCanvas := labelCanvas this; controlCanvas := controlCanvas this;
  display := display this; background := background this; scale := scale this;
  canvasHeight := canvasHeight this; canvasWidth := canvasWidth this;
  displayToImageRatio := displayToImageRatio this;
  _keyDownMap := _keyDownMap this; _isGrabbingImage := _isGrabbingImage this;
  _startGrabX := _startGrabX this; _startGrabY := _startGrabY this;
  _startGrabVisibleCoords := v; calls := calls this
|}.

Definition set_calls (v : list Call) (this : Label2DView) : Label2DView :=
{|
  labelContext := labelContext this; controlContext := controlContext this;
  labelCanvas := labelCanvas this; controlCanvas := controlCanvas this;
  display := display this; background := background this; scale := scale this;
  canvasHeight := canvasHeight this; canvasWidth := canvasWidth this;
  displayToImageRatio := displayToImageRatio this;
  _keyDownMap := _keyDownMap this; _isGrabbingImage := _isGrabbingImage this;
  _startGrabX := _startGrabX this; _startGrabY := _startGrabY this;
  _startGrabVisibleCoords := _startGrabVisibleCoords this; calls := v
|}.

Definition log (c : Call) (this : Label2DView) : Label2DView :=
  set_calls (calls this ++ [c]) this.

(** Writes to a canvas element. *)
Definition canvas_set_resolution (h w : num) (c : HTMLCanvasElement)
  : HTMLCanvasElement :=
{|
  canvas_width := w; canvas_height := h;
  style_width := style_width c; style_height := style_height c;
  style_left := style_left c; style_top := style_top c;
  style_right := style_right c; style_bottom := style_bottom c;
  style_cursor := style_cursor c
|}.

Definition canvas_set_style_size (h w : num) (c : HTMLCanvasElement)
  : HTMLCanvasElement :=
{|
  canvas_width := canvas_width c; canvas_height := canvas_height c;
  style_width := w; style_height := h;
  style_left := style_left c; style_top := style_top c;
  style_right := style_right c; style_bottom := style_bottom c;
  style_cursor := style_cursor c
|}.

Definition canvas_set_style_position (left top : num) (right bottom : string)
  (c : HTMLCanvasElement) : HTMLCanvasElement :=
{|
  canvas_width := canvas_width c; canvas_height := canvas_height c;
  style_width := style_width c; style_height := style_height c;
  style_left := left; style_top := top;
  style_right := right; style_bottom := bottom;
  style_cursor := style_cursor c
|}.

Definition canvas_set_cursor (cursor : string) (c : HTMLCanvasElement)
  : HTMLCanvasElement :=
{|
  canvas_width := canvas_width c; canvas_height := canvas_height c;
  style_width := style_width c; style_height := style_height c;
  style_left := style_left c; style_top := style_top c;
  style_right := style_right c; style_bottom := style_bottom c;
  style_cursor := cursor
|}.

(** A write through the [canvas] argument of [updateScale], which is the
    element held in [controlCanvas] or the one held in [labelCanvas]. *)
Definition update_canvas (canvas : CanvasRef)
  (f : HTMLCanvasElement -> HTMLCanvasElement) (this : Label2DView)
  : Label2DView :=
  match canvas with
  | TheControlCanvas => set_controlCanvas (option_map f (controlCanvas this)) this
  | TheLabelCanvas => set_labelCanvas (option_map f (labelCanvas this)) this
  end.

(** Writes to [this.display.scrollLeft] and [this.display.scrollTop]. *)
Definition display_set_scrollLeft (v : num) (this : Label2DView) : Label2DView :=
  match display this with
  | Some d => set_display (Some {| scrollLeft := v; scrollTop := scrollTop d |}) this
  | None => this
  end.

Definition display_set_scrollTop (v : num) (this : Label2DView) : Label2DView :=
  match display this with
  | Some d => set_display (Some {| scrollLeft := scrollLeft d; scrollTop := v |}) this
  | None => this
  end.

(** *** The environment *)

(** The DOM elements the component holds: what a layout query can depend on. *)
Record Dom : Type := {
  dom_display : option HTMLDivElement;
  dom_background : option HTMLDivElement;
  dom_controlCanvas : option HTMLCanvasElement;
  dom_labelCanvas : option HTMLCanvasElement
}.

Definition dom (this : Label2DView) : Dom := {|
  dom_display := display this;
  dom_background := background this;
  dom_controlCanvas := controlCanvas this;
  dom_labelCanvas := labelCanvas this
|}.

Record Env : Type := {
  (* this.display.getBoundingClientRect() *)
  display_getBoundingClientRect : Dom -> DOMRect;
  (* this.background.getBoundingClientRect() *)
  background_getBoundingClientRect : Dom -> DOMRect;
  (* this.controlCanvas.getBoundingClientRect() *)
  controlCanvas_getBoundingClientRect : Dom -> DOMRect;
  (* this.controlCanvas.offsetTop, this.controlCanvas.offsetLeft *)
  controlCanvas_offsetTop : Dom -> num;
  controlCanvas_offsetLeft : Dom -> num;
  (* this.controlContext.getImageData(x, y, 4, 4).data: 16 pixels, 4 bytes each *)
  controlContext_getImageData : list Call -> num -> num -> list Z;
  (* getCurrentViewerConfig() *)
  getCurrentViewerConfig : ViewerConfigType;
  (* Session.images[getCurrentItem().index] *)
  Session_image : Size2D;
  (* isItemLoaded(this.state.session) *)
  isItemLoaded : bool
}.

(** *** Methods *)

Definition setCursor (cursor : string) (this : Label2DView) : Label2DView :=
  match labelCanvas this with
  | Some c => set_labelCanvas (Some (canvas_set_cursor cursor c)) this
  | None => this
  end.

Definition setDefaultCursor (this : Label2DView) : Label2DView :=
  setCursor "crosshair" this.

Definition getCurrentImageSize (env : Env) : Size2D :=
  let image := Session_image env in
  {| size_width := size_width image; size_height := size_height image |}.

Definition toCanvasCoords (values : Vector2D) (upRes : bool) (this : Label2DView)
  : Vector2D :=
  let out := Vector2D_scale (displayToImageRatio this) values in
  if upRes then Vector2D_scale UP_RES_RATIO out else out.

Definition toImageCoords (values : Vector2D) (upRes : bool) (this : Label2DView)
  : Vector2D :=
  let up := if upRes then lit 1 / UP_RES_RATIO else lit 1 in
  Vector2D_scale (displayToImageRatio this * up) values.

Definition redraw (this : Label2DView) : bool * Label2DView :=
  match labelCanvas this, labelContext this,
        controlCanvas this, controlContext this with
  | Some lc, Some _, Some cc, Some _ =>
      (* clearCanvas: context.clearRect(0, 0, canvas.width, canvas.height) *)
      let this :=
        log (context_clearRect TheLabelCanvas (canvas_width lc) (canvas_height lc))
          this in
      let this :=
        log (context_clearRect TheControlCanvas (canvas_width cc) (canvas_height cc))
          this in
      let this := log (labels_redraw (displayToImageRatio this * UP_RES_RATIO)) this in
      (true, this)
  | _, _, _, _ => (true, this)
  end.

Definition getVisibleCanvasCoords (env : Env) (this : Label2DView) : Vector2D :=
  match display this, controlCanvas this with
  | Some _, Some _ =>
      let displayRect := display_getBoundingClientRect env (dom this) in
      let imgRect := controlCanvas_getBoundingClientRect env (dom this) in
      {| x := rect_x displayRect - rect_x imgRect;
         y := rect_y displayRect - rect_y imgRect |}
  | _, _ => {| x := lit 0; y := lit 0 |}
  end.

Definition getMousePos (env : Env) (e : MouseEvent) (this : Label2DView)
  : Vector2D :=
  match display this with
  | Some _ =>
      let offset := getVisibleCanvasCoords env this in
      let displayRect := display_getBoundingClientRect env (dom this) in
      let x0 := clientX e - rect_x displayRect + x offset in
      let y0 := clientY e - rect_y displayRect + y offset in
      (* limit the mouse within the image *)
      let x1 := Math_max (lit 0) (Math_min x0 (canvasWidth this)) in
      let y1 := Math_max (lit 0) (Math_min y0 (canvasHeight this)) in
      (* return in the image coordinates *)
      {| x := x1 / displayToImageRatio this; y := y1 / displayToImageRatio this |}
  | None => {| x := lit 0; y := lit 0 |}
  end.

(** [data.slice(i * 4, i * 4 + 3)] *)
Definition pixel_rgb (data : list Z) (i : nat) : list Z :=
  firstn 3 (skipn (i * 4) data).

Definition fetchHandleId (env : Env) (mousePos : Vector2D) (this : Label2DView)
  : Z * Z :=
  match controlContext this with
  | Some _ =>
      let p := toCanvasCoords mousePos true this in
      let data := controlContext_getImageData env (calls this) (x p) (y p) in
      let arr := map (fun i => rgbToIndex (pixel_rgb data i)) (seq 0 16) in
      (* finding the mode of the data array to deal with anti-aliasing *)
      match mode arr with
      | Some hoveredIndex => decodeControlIndex hoveredIndex
      | None => decodeControlIndex 0 (* not reached: arr has 16 elements *)
      end
  | None => ((-1)%Z, 0%Z)
  end.

Definition isWithinFrame (env : Env) (e : MouseEvent) (this : Label2DView) : bool :=
  match background this with
  | None => false
  | Some _ =>
      let background := background_getBoundingClientRect env (dom this) in
      (event_x e >=? rect_left background) && (event_y e >=? rect_top background) &&
      (event_x e <=? rect_left background + rect_width background) &&
      (event_y e <=? rect_top background + rect_height background)
  end.

Definition isKeyDown (key : string) (this : Label2DView) : bool :=
  match _keyDownMap this !! key with
  | Some b => b
  | None => false
  end.

Definition onKeyDown (key : string) (this : Label2DView) : Label2DView :=
  set_keyDownMap (<[key := true]> (_keyDownMap this)) this.

Definition onKeyUp (key : string) (this : Label2DView) : Label2DView :=
  set_keyDownMap (delete key (_keyDownMap this)) this.

Definition onMouseDown (env : Env) (e : MouseEvent) (this : Label2DView)
  : Label2DView :=
  if negb (isWithinFrame env e this) || negb (button e =? 0)%Z then this
  else
    let this :=
      (* ctrl + click for dragging *)
      if isKeyDown "Control" this then
        match display this, controlCanvas this with
        | Some _, Some cc =>
            let display := display_getBoundingClientRect env (dom this) in
            if (canvas_width cc >? rect_width display) ||
               (canvas_height cc >? rect_height display)
            then
              (* if needed, start grabbing *)
              let this := setCursor "grabbing" this in
              let this := set_isGrabbingImage true this in
              let this := set_startGrabX (clientX e) this in
              let this := set_startGrabY (clientY e) this in
              set_startGrabVisibleCoords (Some (getVisibleCanvasCoords env this)) this
            else this
        | _, _ => this
        end
      else
        (* get mouse position in image coordinates *)
        let mousePos := getMousePos env e this in
        let '(labelIndex, handleIndex) := fetchHandleId env mousePos this in
        log (labels_onMouseDown mousePos labelIndex handleIndex) this in
    snd (redraw this).

Definition onMouseUp (env : Env) (e : MouseEvent) (this : Label2DView)
  : Label2DView :=
  if negb (isWithinFrame env e this) || negb (button e =? 0)%Z then this
  else
    let this := set_isGrabbingImage false this in
    let this := set_startGrabX (lit (-1)) this in
    let this := set_startGrabY (lit (-1)) this in
    let this := set_startGrabVisibleCoords None this in
    let mousePos := getMousePos env e this in
    let '(labelIndex, handleIndex) := fetchHandleId env mousePos this in
    let this := log (labels_onMouseUp mousePos labelIndex handleIndex) this in
    snd (redraw this).

Definition onMouseLeave (env : Env) (e : MouseEvent) (this : Label2DView)
  : Label2DView :=
  let this := set_keyDownMap ∅ this in
  onMouseUp env e this.

Definition onMouseMove (env : Env) (e : MouseEvent) (this : Label2DView)
  : Label2DView :=
  if negb (isWithinFrame env e this) then onMouseLeave env e this
  else
    let this :=
      (* grabbing image *)
      if isKeyDown "Control" this then
        if _isGrabbingImage this then
          match display this with
          | Some _ =>
              let this := setCursor "grabbing" this in
              let dx := clientX e - _startGrabX this in
              let dy := clientY e - _startGrabY this in
              match _startGrabVisibleCoords this with
              | Some start =>
                  let this := display_set_scrollLeft (x start - dx) this in
                  display_set_scrollTop (y start - dy) this
              | None => this (* not reached: a grab records its start, see
                                [grab_records_start] *)
              end
          | None => this
          end
        else setCursor "grab" this
      else setDefaultCursor this in
    (* update the currently hovered shape *)
    let mousePos := getMousePos env e this in
    let '(labelIndex, handleIndex) := fetchHandleId env mousePos this in
    let this :=
      log (labels_onMouseMove mousePos (getCurrentImageSize env) labelIndex handleIndex)
        this in
    snd (redraw this).

Definition onWheel (env : Env) (e : MouseEvent) (this : Label2DView)
  : Label2DView :=
  if negb (isWithinFrame env e this) then this
  else if isKeyDown "Control" this then snd (redraw this) (* control for zoom *)
  else this.

Definition onDblClick (env : Env) (e : MouseEvent) (this : Label2DView)
  : Label2DView :=
  if negb (isWithinFrame env e this) then this else this.

Definition _getPadding (env : Env) (this : Label2DView) : Vector2D :=
  match display this with
  | Some _ =>
      let displayRect := display_getBoundingClientRect env (dom this) in
      {| x := Math_max (lit 0) ((rect_width displayRect - canvasWidth this) / lit 2);
         y := Math_max (lit 0) ((rect_height displayRect - canvasHeight this) / lit 2) |}
  | None => {| x := lit 0; y := lit 0 |}
  end.

(** The anchor of a rescale (the locals [upperLeftCoords] and [mouseOffset] of
    [updateScale]): both are set when [config.viewScale > 1.0] and left
    undefined otherwise. *)
Definition updateScale_upperLeftCoords (env : Env) (this : Label2DView)
  : option Vector2D :=
  let config := getCurrentViewerConfig env in
  if viewScale config >? lit 1 then Some (getVisibleCanvasCoords env this) else None.

Definition updateScale_mouseOffset (env : Env) (this : Label2DView)
  : option Vector2D :=
  let displayRect := display_getBoundingClientRect env (dom this) in
  let config := getCurrentViewerConfig env in
  match updateScale_upperLeftCoords env this, controlCanvas this with
  | Some upperLeftCoords, Some cc =>
      if (viewOffsetX config <? lit 0) || (viewOffsetY config <? lit 0) then
        Some {| x := Math_min (rect_width displayRect) (canvas_width cc) / lit 2;
                y := Math_min (rect_height displayRect) (canvas_height cc) / lit 2 |}
      else
        let mouseOffset :=
          toCanvasCoords
            {| x := viewOffsetX config; y := viewOffsetY config |} false this in
        Some {| x := x mouseOffset - x upperLeftCoords;
                y := y mouseOffset - y upperLeftCoords |}
  | _, _ => None
  end.

(** The body of [updateScale] after its guards, block by block as the source
    comments them. *)

(* resize canvas *)
Definition updateScale_resize (env : Env) (displayRect : DOMRect)
  (this : Label2DView) : Label2DView :=
  let config := getCurrentViewerConfig env in
  let image := Session_image env in
  let ratio := size_width image / size_height image in
  if rect_width displayRect / rect_height displayRect >? ratio then
    let this := set_canvasHeight (rect_height displayRect * viewScale config) this in
    let this := set_canvasWidth (canvasHeight this * ratio) this in
    set_displayToImageRatio (canvasHeight this / size_height image) this
  else
    let this := set_canvasWidth (rect_width displayRect * viewScale config) this in
    let this := set_canvasHeight (canvasWidth this / ratio) this in
    set_displayToImageRatio (canvasWidth this / size_width image) this.

(* translate back to origin *)
Definition updateScale_translate (env : Env) (mouseOffset : option Vector2D)
  (this : Label2DView) : Label2DView :=
  match mouseOffset with
  | Some _ =>
      let this := display_set_scrollTop (controlCanvas_offsetTop env (dom this)) this in
      display_set_scrollLeft (controlCanvas_offsetLeft env (dom this)) this
  | None => this
  end.

(* set canvas resolution *)
Definition updateScale_resolution (canvas : CanvasRef) (upRes : bool)
  (this : Label2DView) : Label2DView :=
  if upRes then
    update_canvas canvas
      (canvas_set_resolution (canvasHeight this * UP_RES_RATIO)
                             (canvasWidth this * UP_RES_RATIO)) this
  else
    update_canvas canvas
      (canvas_set_resolution (canvasHeight this) (canvasWidth this)) this.

(* set canvas size, set padding *)
Definition updateScale_style (env : Env) (canvas : CanvasRef)
  (this : Label2DView) : Label2DView :=
  let this :=
    update_canvas canvas
      (canvas_set_style_size (canvasHeight this) (canvasWidth this)) this in
  let padding := _getPadding env this in
  let padX := x padding in
  let padY := y padding in
  update_canvas canvas (canvas_set_style_position padX padY "auto" "auto") this.

(* zoom to point *)
Definition updateScale_zoomToPoint (displayRect : DOMRect) (zoomRatio : num)
  (mouseOffset upperLeftCoords : option Vector2D) (this : Label2DView)
  : Label2DView :=
  match mouseOffset, upperLeftCoords with
  | Some mouseOffset, Some upperLeftCoords =>
      let this :=
        if canvasWidth this >? rect_width displayRect then
          display_set_scrollLeft
            (zoomRatio * (x upperLeftCoords + x mouseOffset) - x mouseOffset) this
        else this in
      if canvasHeight this >? rect_height displayRect then
        display_set_scrollTop
          (zoomRatio * (y upperLeftCoords + y mouseOffset) - y mouseOffset) this
      else this
  | _, _ => this
  end.

Definition updateScale (env : Env) (canvas : CanvasRef) (upRes : bool)
  (this : Label2DView) : Label2DView :=
  match display this, controlCanvas this, controlContext this with
  | Some _, Some _, Some _ =>
      let displayRect := display_getBoundingClientRect env (dom this) in
      let config := getCurrentViewerConfig env in
      (* mouseOffset *)
      let upperLeftCoords := updateScale_upperLeftCoords env this in
      let mouseOffset := updateScale_mouseOffset env this in
      (* set scale *)
      if (viewScale config >=? MIN_SCALE) && (viewScale config <? MAX_SCALE) then
        let zoomRatio := viewScale config / scale this in
        let this := log (controlContext_scale zoomRatio zoomRatio) this in
        let this := updateScale_resize env displayRect this in
        let this := updateScale_translate env mouseOffset this in
        let this := updateScale_resolution canvas upRes this in
        let this := updateScale_style env canvas this in
        let this :=
          updateScale_zoomToPoint displayRect zoomRatio mouseOffset upperLeftCoords
            this in
        set_scale (viewScale config) this
      else this
  | _, _, _ => this
  end.

(** *** The [ref] callbacks of [render] *)

(** The callbacks receive the mounted element, or [null]. *)
Definition display_ref (element : option HTMLDivElement) (this : Label2DView)
  : Label2DView :=
  match element with
  | Some el => set_display (Some el) this
  | None => this
  end.

Definition background_ref (element : option HTMLDivElement) (this : Label2DView)
  : Label2DView :=
  match element with
  | Some el => set_background (Some el) this
  | None => this
  end.

(** [context] is the result of [canvas.getContext('2d')]. *)
Definition controlCanvas_ref (env : Env) (canvas : option HTMLCanvasElement)
  (context : option CanvasRenderingContext2D) (this : Label2DView) : Label2DView :=
  match canvas, display this with
  | Some c, Some _ =>
      let this := set_controlCanvas (Some c) this in
      let this := set_controlContext context this in
      let displayRect := display_getBoundingClientRect env (dom this) in
      if truthy (rect_width displayRect) && truthy (rect_height displayRect)
         && isItemLoaded env
      then updateScale env TheControlCanvas true this
      else this
  | _, _ => this
  end.

Definition labelCanvas_ref (env : Env) (canvas : option HTMLCanvasElement)
  (context : option CanvasRenderingContext2D) (this : Label2DView) : Label2DView :=
  match canvas, display this with
  | Some c, Some _ =>
      let this := set_labelCanvas (Some c) this in
      let this := set_labelContext context this in
      let displayRect := display_getBoundingClientRect env (dom this) in
      if truthy (rect_width displayRect) && truthy (rect_height displayRect)
         && isItemLoaded env
      then updateScale env TheLabelCanvas true this
      else this
  | _, _ => this
  end.

(** *** The component as a state machine *)

Inductive Event : Type :=
| KeyDown (key : string)
| KeyUp (key : string)
| MouseDown (e : MouseEvent)
| MouseUp (e : MouseEvent)
| MouseLeave (e : MouseEvent)
| MouseMove (e : MouseEvent)
| Wheel (e : MouseEvent)
| DblClick (e : MouseEvent)
| DisplayRef (element : option HTMLDivElement)
| BackgroundRef (element : option HTMLDivElement)
| ControlCanvasRef (canvas : option HTMLCanvasElement)
    (context : option CanvasRenderingContext2D)
| LabelCanvasRef (canvas : option HTMLCanvasElement)
    (context : option CanvasRenderingContext2D).

Definition handle (env : Env) (ev : Event) (this : Label2DView) : Label2DView :=
  match ev with
  | KeyDown key => onKeyDown key this
  | KeyUp key => onKeyUp key this
  | MouseDown e => onMouseDown env e this
  | MouseUp e => onMouseUp env e this
  | MouseLeave e => onMouseLeave env e this
  | MouseMove e => onMouseMove env e this
  | Wheel e => onWheel env e this
  | DblClick e => onDblClick env e this
  | DisplayRef element => display_ref element this
  | BackgroundRef element => background_ref element this
  | ControlCanvasRef canvas context => controlCanvas_ref env canvas context this
  | LabelCanvasRef canvas context => labelCanvas_ref env canvas context this
  end.

(** The states the component can be in when every event happens in an
    environment that satisfies [ok]: the constructor's, and what an event makes
    of such a state. *)
Inductive reachable_in (ok : Env -> Prop) : Label2DView -> Prop :=
| reachable_constructor : reachable_in ok constructor
| reachable_handle (env : Env) (ev : Event) (this : Label2DView) :
    ok env -> reachable_in ok this -> reachable_in ok (handle env ev this).

(** Reachable in whatever environments. *)
Definition reachable : Label2DView -> Prop := reachable_in (fun _ => True).

End Label2DView.

Arguments Vector2D : clear implicits.
Arguments Size2D : clear implicits.
Arguments DOMRect : clear implicits.
Arguments HTMLDivElement : clear implicits.
Arguments HTMLCanvasElement : clear implicits.
Arguments MouseEvent : clear implicits.
Arguments ViewerConfigType : clear implicits.
Arguments Call : clear implicits.
Arguments Label2DView : clear implicits.
Arguments Dom : clear implicits.
Arguments Env : clear implicits.
Arguments Event : clear implicits.

(** ** A concrete browser and the spec's scenarios *)

Section Scenario.
Context {num : Type} `{Number num}.
Local Open Scope num_scope.

(** The events of a session, each with the environment it happens in. *)
Definition run (steps : list (Env num * Event num)) (this : Label2DView num)
  : Label2DView num :=
  fold_left (fun this step => handle (fst step) (snd step) this) steps this.

(** A container of 800 x 600 at the origin of the screen, which is also the
    frame that receives the mouse events. *)
Definition container : DOMRect num :=
  {| rect_x := lit 0; rect_y := lit 0; rect_width := lit 800; rect_height := lit 600 |}.

(** The canvas lies in the container at its [style] position, shifted by the
    container's scroll position. *)
Definition canvas_layout (d : Dom num) : DOMRect num :=
  match dom_display d, dom_controlCanvas d with
  | Some div, Some c =>
      {| rect_x := style_left c - scrollLeft div;
         rect_y := style_top c - scrollTop div;
         rect_width := style_width c; rect_height := style_height c |}
  | _, _ => container
  end.

Definition canvas_offset (side : HTMLCanvasElement num -> num) (d : Dom num) : num :=
  match dom_controlCanvas d with
  | Some c => side c
  | None => lit 0
  end.

(** An image of 400 x 300, an all-black control buffer, and the given viewer
    configuration. *)
Definition browser (config : ViewerConfigType num) : Env num := {|
  display_getBoundingClientRect := fun _ => container;
  background_getBoundingClientRect := fun _ => container;
  controlCanvas_getBoundingClientRect := canvas_layout;
  controlCanvas_offsetTop := canvas_offset style_top;
  controlCanvas_offsetLeft := canvas_offset style_left;
  controlContext_getImageData := fun _ _ _ => repeat 0%Z 64;
  getCurrentViewerConfig := config;
  Session_image := {| size_width := lit 400; size_height := lit 300 |};
  isItemLoaded := true
|}.

Definition new_div : HTMLDivElement num := {| scrollLeft := lit 0; scrollTop := lit 0 |}.

(** A canvas element as the browser creates it. *)
Definition new_canvas : HTMLCanvasElement num := {|
  canvas_width := lit 300; canvas_height := lit 150;
  style_width := lit 300; style_height := lit 150;
  style_left := lit 0; style_top := lit 0;
  style_right := ""; style_bottom := ""; style_cursor := ""
|}.

(** Mounting the component: the four [ref] callbacks of [render]. *)
Definition mount (env : Env num) : list (Env num * Event num) :=
  [ (env, BackgroundRef (Some new_div));
    (env, DisplayRef (Some new_div));
    (env, ControlCanvasRef (Some new_canvas) (Some Context2D));
    (env, LabelCanvasRef (Some new_canvas) (Some Context2D)) ].

(** The component as first laid out, at [viewScale = 1] with no anchor: the
    image is fitted into the container. *)
Definition fit_config : ViewerConfigType num :=
  {| viewScale := lit 1; viewOffsetX := lit (-1); viewOffsetY := lit (-1) |}.

Definition fitted : Label2DView num := run (mount (browser fit_config)) constructor.

(** The spec's zoom-to-point request: [viewScale = 2] at the image centre
    [(200, 150)].  The new configuration makes the component render again,
    which calls the two canvas callbacks with the mounted elements. *)
Definition zoom_config : ViewerConfigType num :=
  {| viewScale := lit 2; viewOffsetX := lit 200; viewOffsetY := lit 150 |}.

Definition rerender (env : Env num) (this : Label2DView num)
  : list (Env num * Event num) :=
  [ (env, ControlCanvasRef (controlCanvas this) (controlContext this));
    (env, LabelCanvasRef (labelCanvas this) (labelContext this)) ].

Definition zoomed : Label2DView num :=
  run (rerender (browser zoom_config) fitted) fitted.

Definition mouse_at (cx cy : Z) : MouseEvent num :=
  {| clientX := lit cx; clientY := lit cy; button := 0 |}.

(** While zoomed: Control is pressed and the primary button goes down at
    [(100, 100)], which starts a grab. *)
Definition grabbing : Label2DView num :=
  run [ (browser zoom_config, KeyDown "Control");
        (browser zoom_config, MouseDown (mouse_at 100 100)) ] zoomed.

End Scenario.

(** A sample array with a majority: nine samples of 7 and seven of 3. *)
Definition majority_samples : list Z := repeat 7%Z 9 ++ repeat 3%Z 7.

(** The zoomed component with Control held. *)
Definition control_held {num} `{Number num} : Label2DView num :=
  onKeyDown "Control" zoomed.

(** * PointCloudViewer: the canvas of the point-cloud view

    A shallow embedding of [app/src/js/components/point_cloud_viewer.tsx].

    - The ThreeJS objects are opaque handles: a renderer is known by the canvas
      it was created for, a scene by the list of its children; [scene.add]
      appends to that list, as [Object3D.add] does.
    - A DOM element is known by its [nodeName] and by which object it is, so
      that the test [this.canvas !== component] can be made.
    - [updateCanvasScale] of [view/image] and [updateThreeCameraAndRenderer] of
      [view/point_cloud] are not among the sources: the calls are recorded in
      the trace, and what [updateCanvasScale] returns is read from the
      environment, as are the constants [MIN_SCALE] and [MAX_SCALE] that the
      file imports from [view/image].
    - The application store (selected item, loaded flags, viewer configuration)
      and [Session] are read from the environment. *)

Module PointCloudViewer.
Section PointCloudViewer.
Context {num : Type} `{Number num}.
Local Open Scope num_scope.

(** A DOM element: its [nodeName] and which object it is. *)
Record Element : Type := { nodeName : string; element_id : nat }.

(** [a !== b] on element objects *)
Definition not_same (a b : Element) : bool :=
  negb (element_id a =? element_id b)%nat.

(** [THREE.Points] *)
Inductive Points : Type := ThePoints (id : nat).

(** What a scene holds: the sphere that marks the camera target, or a point
    cloud. *)
Inductive Object3D : Type := TargetMesh | Cloud (points : Points).

(** [new THREE.WebGLRenderer({ canvas, alpha: true })] *)
Record WebGLRenderer : Type := { renderer_canvas : Element }.

(** Calls made on the collaborators, in the order they are made. *)
Inductive Call : Type :=
| console_log (item : nat)
| updateCanvasScale_call (display component : Element) (viewScale zoomRatio : num)
| updateThreeCameraAndRenderer (canvas : Element) (renderer : WebGLRenderer)
| renderer_render (renderer : WebGLRenderer) (scene : list Object3D).

(** The fields of the class; [scene] is represented by its children, [camera]
    and [target] are only passed along. *)
Record PointCloudViewer : Type := {
  display : option Element;
  canvas : option Element;
  scale : num;
  renderer : option WebGLRenderer;
  scene_children : list Object3D;
  pointCloud : option Points;
  calls : list Call
}.

Record Env : Type := {
  (* this.props.display *)
  props_display : option Element;
  (* state.user.select.item *)
  select_item : nat;
  (* state.session.items[i].loaded, for the items there are *)
  items_loaded : list bool;
  (* Session.pointClouds *)
  Session_pointClouds : list Points;
  (* Session.itemType *)
  Session_itemType : string;
  (* getCurrentImageViewerConfig(this.state.session).viewScale *)
  config_viewScale : num;
  (* isItemLoaded(this.state.session) *)
  isItemLoaded : bool;
  (* MIN_SCALE and MAX_SCALE of view/image *)
  MIN_SCALE : num;
  MAX_SCALE : num;
  (* updateCanvasScale(state, display, component, null, config, zoomRatio,
     false)[3] *)
  updateCanvasScale : Element -> Element -> num -> num -> num
}.

(** The state the constructor leaves. *)
Definition constructor : PointCloudViewer := {|
  display := None; canvas := None; scale := lit 1; renderer := None;
  (* this.scene.add(this.target) *)
  scene_children := [TargetMesh];
  pointCloud := None; calls := []
|}.

Definition set_display (v : option Element) (this : PointCloudViewer)
  : PointCloudViewer :=
{|
  display := v; canvas := canvas this; scale := scale this;
  renderer := renderer this; scene_children := scene_children this;
  pointCloud := pointCloud this; calls := calls this
|}.

Definition set_canvas (v : option Element) (this : PointCloudViewer)
  : PointCloudViewer :=
{|
  display := display this; canvas := v; scale := scale this;
  renderer := renderer this; scene_children := scene_children this;
  pointCloud := pointCloud this; calls := calls this
|}.

Definition set_scale (v : num) (this : PointCloudViewer) : PointCloudViewer :=
{|
  display := display this; canvas := canvas this; scale := v;
  renderer := renderer this; scene_children := scene_children this;
  pointCloud := pointCloud this; calls := calls this
|}.

Definition set_renderer (v : option WebGLRenderer) (this : PointCloudViewer)
  : PointCloudViewer :=
{|
  display := display this; canvas := canvas this; scale := scale this;
  renderer := v; scene_children := scene_children this;
  pointCloud := pointCloud this; calls := calls this
|}.

Definition set_scene_children (v : list Object3D) (this : PointCloudViewer)
  : PointCloudViewer :=
{|
  display := display this; canvas := canvas this; scale := scale this;
  renderer := renderer this; scene_children := v;
  pointCloud := pointCloud this; calls := calls this
|}.

Definition set_pointCloud (v : option Points) (this : PointCloudViewer)
  : PointCloudViewer :=
{|
  display := display this; canvas := canvas this; scale := scale this;
  renderer := renderer this; scene_children := scene_children this;
  pointCloud := v; calls := calls this
|}.

Definition log (c : Call) (this : PointCloudViewer) : PointCloudViewer :=
{|
  display := display this; canvas := canvas this; scale := scale this;
  renderer := renderer this; scene_children := scene_children this;
  pointCloud := pointCloud this; calls := calls this ++ [c]
|}.

Definition updateRenderer (this : PointCloudViewer) : PointCloudViewer :=
  match canvas this, renderer this with
  | Some c, Some r => log (updateThreeCameraAndRenderer c r) this
  | _, _ => this
  end.

Definition renderThree (this : PointCloudViewer) : PointCloudViewer :=
  match renderer this, pointCloud this with
  | Some r, Some points =>
      let this := set_scene_children [] this in
      (* this.scene.add(this.pointCloud) *)
      let this := set_scene_children (scene_children this ++ [Cloud points]) this in
      log (renderer_render r (scene_children this)) this
  | _, _ => this
  end.

(** [redraw]; [None] stands for the [TypeError] that
    [state.session.items[item].loaded] raises when there is no such item. *)
Definition redraw (env : Env) (this : PointCloudViewer)
  : option (bool * PointCloudViewer) :=
  let item := select_item env in
  let this := log (console_log item) this in
  match nth_error (items_loaded env) item with
  | None => None
  | Some loaded =>
      if loaded then
        match canvas this with
        | Some _ =>
            let this := updateRenderer this in
            let this :=
              set_pointCloud (nth_error (Session_pointClouds env) item) this in
            let this := renderThree this in
            Some (true, this)
        | None => Some (true, this)
        end
      else Some (true, this)
  end.

Definition updateState (env : Env) (this : PointCloudViewer) : PointCloudViewer :=
  set_display (props_display env) this.

Definition initializeRefs (env : Env) (component : option Element)
  (this : PointCloudViewer) : PointCloudViewer :=
  match component with
  | None => this
  | Some component =>
      if String.eqb (nodeName component) "CANVAS" then
        (* the rescale of an image item; [None] when it returns early *)
        let rescaled :=
          match canvas this, display this with
          | Some _, Some display =>
              if String.eqb (Session_itemType env) "image" then
                let viewScale := config_viewScale env in
                if (viewScale <? MIN_SCALE env) || (viewScale >=? MAX_SCALE env)
                then None
                else
                  let zoomRatio := viewScale / scale this in
                  let this :=
                    log (updateCanvasScale_call display component viewScale zoomRatio)
                      this in
                  Some (set_scale
                          (updateCanvasScale env display component viewScale zoomRatio)
                          this)
              else Some this
          | _, _ => Some this
          end in
        match rescaled with
        | None => this
        | Some this =>
            let this :=
              if match canvas this with
                 | Some c => not_same c component
                 | None => true
                 end
              then
                let this := set_canvas (Some component) this in
                (* rendererParams = { canvas: this.canvas, alpha: true } *)
                set_renderer (option_map Build_WebGLRenderer (canvas this)) this
              else this in
            if isItemLoaded env then updateRenderer this else this
        end
      else this
  end.

(** The viewer as a state machine.  A [redraw] that raises leaves the state as
    it was when the exception was raised. *)
Inductive Event : Type :=
| Redraw
| UpdateState
| InitializeRefs (component : option Element).

Definition handle (env : Env) (ev : Event) (this : PointCloudViewer)
  : PointCloudViewer :=
  match ev with
  | Redraw =>
      match redraw env this with
      | Some (_, this) => this
      | None => log (console_log (select_item env)) this
      end
  | UpdateState => updateState env this
  | InitializeRefs component => initializeRefs env component this
  end.

Inductive reachable : PointCloudViewer -> Prop :=
| reachable_constructor : reachable constructor
| reachable_handle (env : Env) (ev : Event) (this : PointCloudViewer) :
    reachable this -> reachable (handle env ev this).

(** The renderer is the one made for the canvas the viewer holds, which is a
    [<canvas>] element. *)
Definition canvas_invariant (this : PointCloudViewer) : Prop :=
  renderer this = option_map Build_WebGLRenderer (canvas this) /\
  forall c, canvas this = Some c -> nodeName c = "CANVAS".

End PointCloudViewer.
End PointCloudViewer.

(** A session with one item, loaded, and its point cloud; an image-type
    configuration at [viewScale = 2]; a rescale helper that returns the scale
    it was asked for. *)
Definition point_cloud_session {num} `{Number num}
  : PointCloudViewer.Env (num := num) := {|
  PointCloudViewer.props_display :=
    Some {| PointCloudViewer.nodeName := "DIV"; PointCloudViewer.element_id := 0 |};
  PointCloudViewer.select_item := 0;
  PointCloudViewer.items_loaded := [true];
  PointCloudViewer.Session_pointClouds := [PointCloudViewer.ThePoints 0];
  PointCloudViewer.Session_itemType := "image";
  PointCloudViewer.config_viewScale := lit 2;
  PointCloudViewer.isItemLoaded := true;
  PointCloudViewer.MIN_SCALE := lit 1;
  PointCloudViewer.MAX_SCALE := lit 3;
  PointCloudViewer.updateCanvasScale := fun _ _ viewScale _ => viewScale
|}.

Definition point_cloud_canvas : PointCloudViewer.Element :=
  {| PointCloudViewer.nodeName := "CANVAS"; PointCloudViewer.element_id := 1 |}.

(** The viewer once its canvas is mounted and the state has been pushed. *)
Definition point_cloud_mounted {num} `{Number num}
  : PointCloudViewer.PointCloudViewer (num := num) :=
  PointCloudViewer.handle point_cloud_session PointCloudViewer.UpdateState
    (PointCloudViewer.handle point_cloud_session
       (PointCloudViewer.InitializeRefs (Some point_cloud_canvas))
       PointCloudViewer.constructor).

(** ** Observations, invariants and the rule for [mode] *)

(** The rule [mode] is compared with: the most frequent value and, when several
    values are equally frequent, the one whose last occurrence comes latest in
    the array.  [freq] gives the frequency of a value. *)
Fixpoint latest_most_frequent (freq : Z -> Z) (arr : list Z) : option Z :=
  match arr with
  | [] => None
  | a :: rest =>
      match latest_most_frequent freq rest with
      | None => Some a
      | Some m => if (freq m <? freq a)%Z then Some a else Some m
      end
  end.

Definition mode_rule (arr : list Z) : option Z :=
  latest_most_frequent (occurrences arr) arr.

(** The viewport fields, which only [updateScale] writes. *)
Definition viewport {num} (this : Label2DView num) : num * num * num * num :=
  (scale this, canvasWidth this, canvasHeight this, displayToImageRatio this).

(** The grab record. *)
Definition grab {num} (this : Label2DView num)
  : bool * num * num * option (Vector2D num) :=
  (_isGrabbingImage this, _startGrabX this, _startGrabY this,
   _startGrabVisibleCoords this).

(** The fields no block of [updateScale] writes. *)
Definition untouched {num} (this : Label2DView num) :=
  (grab this, _keyDownMap this, background this, controlContext this,
   labelContext this).

Definition attached {A} (o : option A) : bool :=
  match o with Some _ => true | None => false end.

(** Which elements are attached. *)
Definition attachment {num} (this : Label2DView num) : bool * bool * bool :=
  (attached (display this), attached (controlCanvas this),
   attached (labelCanvas this)).

(** Until a control canvas has been attached, no rescale has happened. *)
Definition never_rescaled {num} `{Number num} (this : Label2DView num) : Prop :=
  controlCanvas this = None ->
  canvasWidth this = lit 0 /\ canvasHeight this = lit 0 /\
  displayToImageRatio this = lit 1.

(** A grab in progress has recorded where it started. *)
Definition grab_started {num} (this : Label2DView num) : Prop :=
  _isGrabbingImage this = true -> _startGrabVisibleCoords this <> None.

(** What every browser guarantees: the container's rectangle has no negative
    size, and a loaded image has a positive size. *)
Definition well_laid_out (env : Env Q) : Prop :=
  (forall d, (0 <= rect_width (display_getBoundingClientRect env d))%Q /\
             (0 <= rect_height (display_getBoundingClientRect env d))%Q) /\
  (isItemLoaded env = true ->
   (0 < size_width (Session_image env))%Q /\ (0 < size_height (Session_image env))%Q).

(** A viewport as a rescale leaves it. *)
Definition viewport_ok (this : Label2DView Q) : Prop :=
  (0 <= canvasWidth this)%Q /\ (0 <= canvasHeight this)%Q /\
  (0 < displayToImageRatio this)%Q.

(** The events that mount a canvas, which are the ones that rescale. *)
Definition is_canvas_ref {num} (ev : Event num) : bool :=
  match ev with
  | ControlCanvasRef _ _ | LabelCanvasRef _ _ => true
  | _ => false
  end.

(** What only the canvas callbacks write: the viewport, the control canvas,
    the contexts, and the label canvas but for its cursor. *)
Definition fixtures {num} (this : Label2DView num) :=
  (viewport this, controlCanvas this, controlContext this, labelContext this,
   option_map (canvas_set_cursor "") (labelCanvas this)).

(** Without a grab in progress the grab record is the constructor's. *)
Definition grab_idle {num} `{Number num} (this : Label2DView num) : Prop :=
  _isGrabbingImage this = false -> grab this = (false, lit (-1), lit (-1), None).

(** A grab is only ever in progress with the display attached. *)
Definition grab_has_display {num} (this : Label2DView num) : Prop :=
  _isGrabbingImage this = true -> attached (display this) = true.

(** The order in which [render] attaches things: a canvas only in a display, a
    context only with its canvas. *)
Definition attached_in_order {num} (this : Label2DView num) : Prop :=
  (attached (controlCanvas this) = true -> attached (display this) = true) /\
  (attached (labelCanvas this) = true -> attached (display this) = true) /\
  (attached (controlContext this) = true -> attached (controlCanvas this) = true) /\
  (attached (labelContext this) = true -> attached (labelCanvas this) = true).



(** A position in image coordinates that lies within the image as the viewport
    shows it. *)
Definition in_image (this : Label2DView Q) (p : Vector2D Q) : Prop :=
  (0 <= x p <= canvasWidth this / displayToImageRatio this)%Q /\
  (0 <= y p <= canvasHeight this / displayToImageRatio this)%Q.

(** A call that hands a mouse position to the labels does so within the
    image. *)
Definition call_in_image (this : Label2DView Q) (c : Call Q) : Prop :=
  match c with
  | labels_onMouseDown p _ _ | labels_onMouseUp p _ _ | labels_onMouseMove p _ _ _ =>
      in_image this p
  | _ => True
  end.

(** * Properties *)

(** ** Tactics *)

(** Case analysis on every test a handler makes. *)
Ltac branches :=
  repeat (simpl;
    match goal with
    | |- context [match ?t with _ => _ end] =>
        lazymatch t with
        | context [match _ with _ => _ end] => fail
        | _ => destruct t eqn:?
        end
    end); simpl.

Ltac unfold_handlers :=
  unfold handle, onKeyDown, onKeyUp, onMouseMove, onMouseLeave, onMouseUp,
    onMouseDown, onWheel, onDblClick, display_ref, background_ref, redraw,
    setDefaultCursor, setCursor, display_set_scrollLeft, display_set_scrollTop, log.

(** The operations of [Number] at the rationals. *)
Ltac q_ops :=
  cbn [lit num_add num_sub num_mul num_div num_ltb num_leb Math_min Math_max
       Q_Number] in *;
  unfold inject_Z in *.

Arguments getMousePos : simpl never.
Arguments fetchHandleId : simpl never.
Arguments getVisibleCanvasCoords : simpl never.
Arguments isWithinFrame : simpl never.
Arguments isKeyDown : simpl never.
Arguments _getPadding : simpl never.

(** ** The mode of the sampled colours *)

Section Sorting.
Variable freq : Z -> Z.
Let by_freq (a b : Z) : Z := (freq a - freq b)%Z.
Let ascending (l : list Z) : Prop :=
  StronglySorted (fun a b => (freq a <= freq b)%Z) l.

Lemma sort_insert_Permutation (a : Z) (l : list Z) :
  Permutation (sort_insert by_freq a l) (a :: l).
Proof.
  induction l as [|b l IH]; simpl; [reflexivity|].
  destruct (by_freq a b <=? 0)%Z; [reflexivity|].
  rewrite IH. apply perm_swap.
Qed.

Lemma Array_sort_Permutation (arr : list Z) :
  Permutation (Array_sort by_freq arr) arr.
Proof.
  induction arr as [|a arr IH]; simpl; [reflexivity|].
  rewrite sort_insert_Permutation. now constructor.
Qed.

Lemma sort_insert_ascending (a : Z) (l : list Z) :
  ascending l -> ascending (sort_insert by_freq a l).
Proof.
  unfold ascending, by_freq.
  induction l as [|b l IH]; intros Hs; simpl.
  - repeat constructor.
  - destruct (Z.leb_spec (freq a - freq b) 0) as [Hle|Hgt].
    + constructor; [exact Hs|].
      apply StronglySorted_inv in Hs as [_ Hb].
      constructor; [lia|].
      rewrite List.Forall_forall in *. intros c Hc. specialize (Hb c Hc). lia.
    + apply StronglySorted_inv in Hs as [Hl Hb].
      constructor; [auto|].
      rewrite List.Forall_forall in *. intros c Hc.
      apply (Permutation_in _ (sort_insert_Permutation a l)) in Hc.
      destruct Hc as [<-|Hc]; [lia|auto].
Qed.

Lemma Array_sort_ascending (arr : list Z) : ascending (Array_sort by_freq arr).
Proof.
  induction arr as [|a arr IH]; simpl.
  - constructor.
  - now apply sort_insert_ascending.
Qed.

Lemma last_default (l : list Z) (a d d' : Z) :
  List.last (a :: l) d = List.last (a :: l) d'.
Proof.
  revert a. induction l as [|b l IH]; intros a; [reflexivity|].
  change (List.last (b :: l) d = List.last (b :: l) d'). apply IH.
Qed.

Lemma Array_pop_cons (b c : Z) (l : list Z) :
  fst (Array_pop (b :: c :: l)) = fst (Array_pop (c :: l)).
Proof.
  cbn [Array_pop fst]. f_equal.
  change (List.last (c :: l) b = List.last (c :: l) c). apply last_default.
Qed.

Lemma Array_pop_ascending (b : Z) (l : list Z) :
  ascending (b :: l) ->
  exists m, fst (Array_pop (b :: l)) = Some m /\ (freq b <= freq m)%Z.
Proof.
  revert b. induction l as [|c l IH]; intros b Hs.
  - exists b. split; [reflexivity|lia].
  - apply StronglySorted_inv in Hs as [Hl Hb].
    destruct (IH c Hl) as (m & Hm & Hle).
    exists m. rewrite Array_pop_cons. split; [exact Hm|].
    apply Forall_inv in Hb. lia.
Qed.

(** Where the inserted element ends up decides what [pop] returns. *)
Lemma Array_pop_sort_insert (a : Z) (l : list Z) :
  ascending l ->
  fst (Array_pop (sort_insert by_freq a l)) =
  match fst (Array_pop l) with
  | None => Some a
  | Some m => if (freq m <? freq a)%Z then Some a else Some m
  end.
Proof.
  induction l as [|b l IH]; intros Hs; [reflexivity|].
  destruct (Array_pop_ascending b l Hs) as (m & Hm & Hbm).
  rewrite Hm. cbn [sort_insert]. unfold by_freq at 1.
  destruct (Z.leb_spec (freq a - freq b) 0) as [Hle|Hgt].
  - rewrite Array_pop_cons, Hm.
    destruct (Z.ltb_spec (freq m) (freq a)); [lia|reflexivity].
  - pose proof Hs as Hs'. apply StronglySorted_inv in Hs' as [Hl _].
    specialize (IH Hl).
    destruct l as [|c l].
    + simpl in Hm. injection Hm as <-. simpl.
      destruct (Z.ltb_spec (freq b) (freq a)); [reflexivity|lia].
    + rewrite Array_pop_cons in Hm. rewrite Hm in IH.
      destruct (sort_insert by_freq a (c :: l)) as [|d l'] eqn:E.
      { simpl in E. destruct (by_freq a c <=? 0)%Z; discriminate. }
      rewrite Array_pop_cons. exact IH.
Qed.

Lemma Array_pop_sort (arr : list Z) :
  fst (Array_pop (Array_sort by_freq arr)) = latest_most_frequent freq arr.
Proof.
  induction arr as [|a arr IH]; [reflexivity|].
  cbn [Array_sort fold_right latest_most_frequent].
  change (fold_right (sort_insert by_freq) [] arr) with (Array_sort by_freq arr).
  rewrite Array_pop_sort_insert by apply Array_sort_ascending.
  now rewrite IH.
Qed.

Lemma latest_most_frequent_max (arr : list Z) (m : Z) :
  latest_most_frequent freq arr = Some m ->
  In m arr /\ forall a, In a arr -> (freq a <= freq m)%Z.
Proof.
  revert m. induction arr as [|b arr IH]; intros m; simpl; [discriminate|].
  destruct (latest_most_frequent freq arr) as [m'|] eqn:E.
  - destruct (IH m' eq_refl) as [Hin Hmax].
    destruct (Z.ltb_spec (freq m') (freq b)); intros [= <-].
    + split; [now left|]. intros a [<-|Ha]; [lia|]. specialize (Hmax a Ha). lia.
    + split; [now right|]. intros a [<-|Ha]; [lia|auto].
  - intros [= <-]. destruct arr as [|c arr].
    + split; [now left|]. intros a [<-|[]]. lia.
    + simpl in E. destruct (latest_most_frequent freq arr);
        [destruct (_ <? _)%Z|]; discriminate.
Qed.

Lemma latest_most_frequent_Some (a : Z) (arr : list Z) :
  exists m, latest_most_frequent freq (a :: arr) = Some m.
Proof.
  simpl. destruct (latest_most_frequent freq arr) as [m|]; [|eauto].
  destruct (_ <? _)%Z; eauto.
Qed.

End Sorting.

Lemma mode_mode_rule (arr : list Z) : mode arr = mode_rule arr.
Proof. apply Array_pop_sort. Qed.

Lemma occurrences_cons (b : Z) (arr : list Z) (a : Z) :
  occurrences (b :: arr) a = ((if (b =? a)%Z then 1 else 0) + occurrences arr a)%Z.
Proof.
  unfold occurrences. simpl. destruct (b =? a)%Z; simpl length; lia.
Qed.

Lemma occurrences_nonneg (arr : list Z) (a : Z) : (0 <= occurrences arr a)%Z.
Proof. unfold occurrences. lia. Qed.

Lemma occurrences_In (arr : list Z) (a : Z) : (0 < occurrences arr a)%Z -> In a arr.
Proof.
  induction arr as [|b arr IH]; [unfold occurrences; simpl; lia|].
  rewrite occurrences_cons. destruct (Z.eqb_spec b a) as [->|_]; [now left|].
  intros Hp. right. apply IH. lia.
Qed.

Lemma occurrences_two (arr : list Z) (v w : Z) :
  v <> w -> (occurrences arr v + occurrences arr w <= Z.of_nat (length arr))%Z.
Proof.
  intros Hne. induction arr as [|b arr IH]; [unfold occurrences; simpl; lia|].
  rewrite !occurrences_cons. simpl length.
  destruct (Z.eqb_spec b v), (Z.eqb_spec b w); try lia.
Qed.

Lemma occurrences_Permutation (arr arr' : list Z) (a : Z) :
  Permutation arr arr' -> occurrences arr' a = occurrences arr a.
Proof.
  induction 1 as [|b l l' _ IH|b c l|l l' l'' _ IH1 _ IH2];
    rewrite ?occurrences_cons; try lia.
Qed.

(** A value that is strictly more frequent than every other one is the mode. *)
Lemma mode_most_frequent (arr : list Z) (v : Z) :
  In v arr ->
  (forall w, w <> v -> (occurrences arr w < occurrences arr v)%Z) ->
  mode arr = Some v.
Proof.
  intros Hin Hmost. rewrite mode_mode_rule. unfold mode_rule.
  destruct arr as [|a arr]; [destruct Hin|].
  destruct (latest_most_frequent_Some (occurrences (a :: arr)) a arr) as [m Hm].
  rewrite Hm. f_equal.
  apply latest_most_frequent_max in Hm as [_ Hmax].
  destruct (Z.eq_dec m v) as [|Hne]; [assumption|].
  specialize (Hmost m Hne). specialize (Hmax v Hin). lia.
Qed.

Lemma mode_majority (arr arr' : list Z) (v : Z) :
  length arr = 16%nat ->
  (16 < 2 * occurrences arr v)%Z ->
  Permutation arr arr' ->
  mode arr' = Some v.
Proof.
  intros Hlen Hmaj Hperm.
  assert (Hocc : forall a, occurrences arr' a = occurrences arr a)
    by (intros a; now apply occurrences_Permutation).
  apply mode_most_frequent.
  - apply (Permutation_in _ Hperm), occurrences_In. lia.
  - intros w Hne. rewrite !Hocc.
    pose proof (occurrences_two arr w v Hne) as Htwo.
    rewrite Hlen in Htwo. lia.
Qed.

(** X3. The picker: when more than 8 of the 16 pixels it samples carry the
    colour index [v], [fetchHandleId] decodes [v], whatever the other samples
    are and in whatever order they come. *)
Lemma fetchHandleId_majority {num} `{Number num} (env : Env num)
    (mousePos : Vector2D num) (this : Label2DView num)
    (ctx : CanvasRenderingContext2D) (v : Z) :
  controlContext this = Some ctx ->
  let p := toCanvasCoords mousePos true this in
  let data := controlContext_getImageData env (calls this) (x p) (y p) in
  let arr := map (fun i => rgbToIndex (pixel_rgb data i)) (seq 0 16) in
  (16 < 2 * occurrences arr v)%Z ->
  fetchHandleId env mousePos this = decodeControlIndex v.
Proof.
  intros Hctx p data arr Hmaj. unfold fetchHandleId. rewrite Hctx. cbn zeta.
  fold p. fold data. fold arr.
  now rewrite (mode_majority arr arr v eq_refl Hmaj (Permutation_refl arr)).
Qed.

(** C4. For every 16-element sample array in which one value holds a strict
    majority (more than 8 of the 16 samples), [mode] returns that value whatever
    the order of the samples; and the value [mode] returns is always fixed by the
    contents of the array through one rule (the most frequent value and, among
    equally frequent ones, the one occurring last), so that calls on arrays with
    identical contents, ties included, return the same value. *)
Theorem mode_majority_and_tie_break :
  (forall (arr arr' : list Z) (v : Z),
      length arr = 16%nat ->
      (16 < 2 * occurrences arr v)%Z ->
      Permutation arr arr' ->
      mode arr' = Some v) /\
  (forall arr : list Z, mode arr = mode_rule arr).
Proof. split; [exact mode_majority|exact mode_mode_rule]. Qed.

Lemma mode_majority_and_tie_break_witness :
  length majority_samples = 16%nat /\
  (16 < 2 * occurrences majority_samples 7)%Z /\
  Permutation majority_samples (rev majority_samples) /\
  mode (rev majority_samples) = Some 7%Z.
Proof.
  assert (Hlen : length majority_samples = 16%nat) by reflexivity.
  assert (Hmaj : (16 < 2 * occurrences majority_samples 7)%Z) by (vm_compute; reflexivity).
  assert (Hperm : Permutation majority_samples (rev majority_samples))
    by apply Permutation_rev.
  split; [exact Hlen|]. split; [exact Hmaj|]. split; [exact Hperm|].
  exact (proj1 mode_majority_and_tie_break _ _ _ Hlen Hmaj Hperm).
Defined.

(** An exact tie: eight samples of each of two values.  The value whose last
    occurrence comes latest wins, in either arrangement. *)
Example mode_tie_12 : mode (repeat 1%Z 8 ++ repeat 2%Z 8) = Some 2%Z.
Proof. reflexivity. Qed.

Example mode_tie_21 : mode (repeat 2%Z 8 ++ repeat 1%Z 8) = Some 1%Z.
Proof. reflexivity. Qed.

(** [mode] sorts its argument in place and pops the result off it: the array
    object that was passed holds one sample less afterwards, so a second call on
    that same object sees other contents. *)
Example mode_in_place_tie :
  let arr := repeat 1%Z 8 ++ repeat 2%Z 8 in
  mode_in_place arr = (Some 2%Z, repeat 1%Z 8 ++ repeat 2%Z 7) /\
  mode (snd (mode_in_place arr)) = Some 1%Z.
Proof. split; reflexivity. Qed.

(** ** Arithmetic of the rational instance *)

Local Open Scope Q_scope.

Lemma Qltb_lt (a b : Q) : Qltb a b = true <-> a < b.
Proof.
  unfold Qltb. rewrite negb_true_iff, <- not_true_iff_false, Qle_bool_iff.
  split; [apply Qnot_le_lt|apply Qlt_not_le].
Qed.


Lemma Qltb_spec (a b : Q) : reflect (a < b) (Qltb a b).
Proof. apply iff_reflect. symmetry. apply Qltb_lt. Qed.

Lemma Qle_bool_spec (a b : Q) : reflect (a <= b) (Qle_bool a b).
Proof. apply iff_reflect. symmetry. apply Qle_bool_iff. Qed.

(** ** What the handlers leave alone *)

Section Frames.
Context {num : Type} `{Number num}.
Implicit Types (this : Label2DView num) (env : Env num) (e : MouseEvent num).

Lemma redraw_true this : fst (redraw this) = true.
Proof. unfold redraw. branches; reflexivity. Qed.

Lemma redraw_calls this :
  exists cs, snd (redraw this) = set_calls (calls this ++ cs) this.
Proof.
  unfold redraw. branches; try (exists []; destruct this; simpl; now rewrite app_nil_r).
  eexists [_; _; _]. unfold log. simpl. now rewrite <- !app_assoc.
Qed.

Lemma viewport_mouse env e this :
  viewport (onMouseDown env e this) = viewport this /\
  viewport (onMouseUp env e this) = viewport this /\
  viewport (onMouseLeave env e this) = viewport this /\
  viewport (onMouseMove env e this) = viewport this /\
  viewport (onWheel env e this) = viewport this.
Proof.
  unfold onMouseMove, onMouseLeave, onMouseUp, onMouseDown, onWheel, redraw,
    setDefaultCursor, setCursor, display_set_scrollLeft, display_set_scrollTop.
  repeat split; branches; reflexivity.
Qed.

End Frames.

(** ** What [updateScale] writes *)

Arguments updateScale_mouseOffset : simpl never.
Arguments updateScale_upperLeftCoords : simpl never.

Section UpdateScale.
Context {num : Type} `{Number num}.
Implicit Types (this : Label2DView num) (env : Env num) (ev : Event num).

Ltac block :=
  unfold update_canvas, display_set_scrollLeft, display_set_scrollTop, log,
    attachment, untouched, grab, viewport, attached, option_map, dom;
  branches; congruence.

Lemma log_frame c this :
  untouched (log c this) = untouched this /\ viewport (log c this) = viewport this /\
  dom (log c this) = dom this.
Proof. repeat split. Qed.

Lemma resize_frame env r this :
  untouched (updateScale_resize env r this) = untouched this /\
  dom (updateScale_resize env r this) = dom this /\
  scale (updateScale_resize env r this) = scale this /\
  attachment (updateScale_resize env r this) = attachment this.
Proof. unfold updateScale_resize. repeat split; block. Qed.

Lemma translate_frame env mo this :
  untouched (updateScale_translate env mo this) = untouched this /\
  viewport (updateScale_translate env mo this) = viewport this /\
  attachment (updateScale_translate env mo this) = attachment this.
Proof. unfold updateScale_translate. repeat split; block. Qed.

Lemma resolution_frame canvas upRes this :
  untouched (updateScale_resolution canvas upRes this) = untouched this /\
  viewport (updateScale_resolution canvas upRes this) = viewport this /\
  display (updateScale_resolution canvas upRes this) = display this /\
  attachment (updateScale_resolution canvas upRes this) = attachment this.
Proof. unfold updateScale_resolution. repeat split; block. Qed.

Lemma style_frame env canvas this :
  untouched (updateScale_style env canvas this) = untouched this /\
  viewport (updateScale_style env canvas this) = viewport this /\
  display (updateScale_style env canvas this) = display this /\
  attachment (updateScale_style env canvas this) = attachment this.
Proof. unfold updateScale_style. repeat split; block. Qed.

Lemma zoomToPoint_frame r z mo ul this :
  untouched (updateScale_zoomToPoint r z mo ul this) = untouched this /\
  viewport (updateScale_zoomToPoint r z mo ul this) = viewport this /\
  attachment (updateScale_zoomToPoint r z mo ul this) = attachment this.
Proof. unfold updateScale_zoomToPoint. repeat split; block. Qed.

Lemma updateScale_unattached env canvas upRes this :
  display this = None \/ controlCanvas this = None \/ controlContext this = None ->
  updateScale env canvas upRes this = this.
Proof.
  unfold updateScale. intros [Hn|[Hn|Hn]]; rewrite Hn; branches; reflexivity.
Qed.

Lemma updateScale_out_of_range env canvas upRes this :
  (viewScale (getCurrentViewerConfig env) >=? MIN_SCALE)%num
  && (viewScale (getCurrentViewerConfig env) <? MAX_SCALE)%num = false ->
  updateScale env canvas upRes this = this.
Proof.
  unfold updateScale. intros ->.
  destruct (display this), (controlCanvas this), (controlContext this); reflexivity.
Qed.

(** What a rescale that passes the guards commits. *)
Lemma updateScale_applied env canvas upRes this d cc ctx :
  display this = Some d -> controlCanvas this = Some cc ->
  controlContext this = Some ctx ->
  (viewScale (getCurrentViewerConfig env) >=? MIN_SCALE)%num
  && (viewScale (getCurrentViewerConfig env) <? MAX_SCALE)%num = true ->
  let config := getCurrentViewerConfig env in
  let displayRect := display_getBoundingClientRect env (dom this) in
  let zoomRatio := (viewScale config / scale this)%num in
  let resized :=
    updateScale_resize env displayRect
      (log (controlContext_scale zoomRatio zoomRatio) this) in
  let this' := updateScale env canvas upRes this in
  scale this' = viewScale config /\
  canvasWidth this' = canvasWidth resized /\
  canvasHeight this' = canvasHeight resized /\
  displayToImageRatio this' = displayToImageRatio resized /\
  display this' =
    display
      (updateScale_zoomToPoint displayRect zoomRatio
         (updateScale_mouseOffset env this) (updateScale_upperLeftCoords env this)
         (updateScale_style env canvas
            (updateScale_resolution canvas upRes
               (updateScale_translate env (updateScale_mouseOffset env this)
                  resized)))).
Proof.
  intros Hd Hcc Hctx Hrange. unfold updateScale. rewrite Hd, Hcc, Hctx, Hrange.
  cbn zeta. split; [reflexivity|].
  match goal with
  | |- context [set_scale _ (updateScale_zoomToPoint ?r ?z ?mo ?ul
                  (updateScale_style ?e ?c (updateScale_resolution ?c ?u
                     (updateScale_translate ?e ?mo ?t))))] =>
      destruct (zoomToPoint_frame r z mo ul
                  (updateScale_style e c (updateScale_resolution c u
                     (updateScale_translate e mo t)))) as (_ & Hz & _);
      destruct (style_frame e c (updateScale_resolution c u
                     (updateScale_translate e mo t))) as (_ & Hs & _);
      destruct (resolution_frame c u (updateScale_translate e mo t)) as (_ & Hr & _);
      destruct (translate_frame e mo t) as (_ & Ht & _)
  end.
  rewrite Hs, Hr, Ht in Hz. unfold viewport in Hz.
  injection Hz as _ Hw Hh Hratio.
  repeat split; assumption.
Qed.

Lemma updateScale_untouched env canvas upRes this :
  untouched (updateScale env canvas upRes this) = untouched this.
Proof.
  unfold updateScale.
  destruct (display this), (controlCanvas this), (controlContext this);
    try reflexivity.
  destruct (_ && _); [|reflexivity]. cbn zeta.
  change (untouched (set_scale ?v ?t)) with (untouched t).
  now rewrite (proj1 (zoomToPoint_frame _ _ _ _ _)), (proj1 (style_frame _ _ _)),
    (proj1 (resolution_frame _ _ _)), (proj1 (translate_frame _ _ _)),
    (proj1 (resize_frame _ _ _)).
Qed.

Lemma updateScale_attachment env canvas upRes this :
  attachment (updateScale env canvas upRes this) = attachment this.
Proof.
  unfold updateScale.
  destruct (display this) eqn:Hd, (controlCanvas this) eqn:Hc,
    (controlContext this); try reflexivity.
  destruct (_ && _); [|reflexivity]. cbn zeta.
  change (attachment (set_scale ?v ?t)) with (attachment t).
  rewrite (proj2 (proj2 (zoomToPoint_frame _ _ _ _ _))).
  rewrite (proj2 (proj2 (proj2 (style_frame _ _ _)))).
  rewrite (proj2 (proj2 (proj2 (resolution_frame _ _ _)))).
  rewrite (proj2 (proj2 (translate_frame _ _ _))).
  match goal with
  | |- context [updateScale_resize ?e ?r ?t] =>
      destruct (resize_frame e r t) as (_ & _ & _ & Ha)
  end.
  rewrite Ha. reflexivity.
Qed.

End UpdateScale.

(** ** Invariants of the reachable states *)

Arguments updateScale : simpl never.

Section Invariants.
Context {num : Type} `{Number num}.
Implicit Types (this : Label2DView num) (env : Env num) (ev : Event num).

Lemma attached_None {A} (o : option A) : attached o = false <-> o = None.
Proof. destruct o; simpl; split; congruence. Qed.

Lemma updateScale_controlCanvas_None env canvas upRes this :
  controlCanvas (updateScale env canvas upRes this) = None ->
  updateScale env canvas upRes this = this.
Proof.
  intros Hnone. apply updateScale_unattached. right. left.
  pose proof (updateScale_attachment env canvas upRes this) as Ha.
  unfold attachment in Ha. rewrite Hnone in Ha. injection Ha as _ Ha _.
  now apply attached_None.
Qed.

Lemma never_rescaled_handle env ev this :
  never_rescaled this -> never_rescaled (handle env ev this).
Proof.
  unfold never_rescaled. intros Hinv.
  destruct ev; try (unfold_handlers; branches; intros; try congruence; auto; fail).
  - (* the control canvas is attached *)
    simpl. unfold controlCanvas_ref. branches; auto; intros Hnone.
    + apply updateScale_controlCanvas_None in Hnone as Heq.
      rewrite Heq in Hnone. discriminate Hnone.
    + discriminate Hnone.
  - (* the label canvas is attached *)
    simpl. unfold labelCanvas_ref. branches; auto; intros Hnone.
    apply updateScale_controlCanvas_None in Hnone as Heq.
    rewrite Heq in *. simpl in *. auto.
Qed.

Lemma grab_started_handle env ev this :
  grab_started this -> grab_started (handle env ev this).
Proof.
  unfold grab_started. intros Hinv.
  destruct ev;
    try (unfold_handlers; branches; intros; try congruence; auto;
         exfalso; now apply Hinv).
  - simpl. unfold controlCanvas_ref. branches; try exact Hinv.
    match goal with
    | |- context [updateScale ?e ?c ?u ?t] =>
        pose proof (updateScale_untouched e c u t) as Hu
    end.
    unfold untouched, grab in Hu. simpl in Hu. injection Hu as -> _ _ -> _ _ _ _.
    exact Hinv.
  - simpl. unfold labelCanvas_ref. branches; try exact Hinv.
    match goal with
    | |- context [updateScale ?e ?c ?u ?t] =>
        pose proof (updateScale_untouched e c u t) as Hu
    end.
    unfold untouched, grab in Hu. simpl in Hu. injection Hu as -> _ _ -> _ _ _ _.
    exact Hinv.
Qed.

Lemma reachable_never_rescaled this : reachable this -> never_rescaled this.
Proof.
  induction 1 as [|env ev this _ _ IH].
  - intros _. repeat split.
  - now apply never_rescaled_handle.
Qed.

(** The case [onMouseMove] leaves out is not reached. *)
Lemma grab_records_start this : reachable this -> grab_started this.
Proof.
  induction 1 as [|env ev this _ _ IH].
  - intros Hg. discriminate Hg.
  - now apply grab_started_handle.
Qed.

End Invariants.

(** ** Facts about the scenarios *)

Lemma zoomed_viewport :
  scale (zoomed (num := Q)) == 2 /\ canvasWidth (zoomed (num := Q)) == 1600 /\
  canvasHeight (zoomed (num := Q)) == 1200 /\
  displayToImageRatio (zoomed (num := Q)) == 4.
Proof. vm_compute. repeat split. Qed.

(** The zoom scenario in binary64 arithmetic: every value is exact.  The image
    centre is at the centre of the container, (400, 300) on the screen, before
    the zoom and after it. *)
Lemma zoom_scenario_float :
  let screen (this : Label2DView PrimFloat.float) (p : Vector2D PrimFloat.float) :=
    let c := toCanvasCoords p false this in
    let visible := getVisibleCanvasCoords (browser zoom_config) this in
    ((x c - x visible)%num, (y c - y visible)%num) in
  let centre : Vector2D PrimFloat.float := {| x := lit 200; y := lit 150 |} in
  viewport fitted = (lit 1, lit 800, lit 600, lit 2) /\
  viewport zoomed = (lit 2, lit 1600, lit 1200, lit 4) /\
  display zoomed = Some {| scrollLeft := lit 400; scrollTop := lit 300 |} /\
  screen fitted centre = (lit 400, lit 300) /\
  screen zoomed centre = (lit 400, lit 300).
Proof. vm_compute. repeat split. Qed.

(** The zoomed state of the scenario has everything attached. *)
Lemma zoomed_attached :
  exists d lc lctx cc cctx,
    display (zoomed (num := Q)) = Some d /\
    labelCanvas (zoomed (num := Q)) = Some lc /\
    labelContext (zoomed (num := Q)) = Some lctx /\
    controlCanvas (zoomed (num := Q)) = Some cc /\
    controlContext (zoomed (num := Q)) = Some cctx.
Proof. vm_compute. repeat eexists. Qed.

(** The states of the scenarios are states the component reaches. *)
Lemma run_reachable {num} `{Number num} (ok : Env num -> Prop)
    (steps : list (Env num * Event num)) (this : Label2DView num) :
  reachable_in ok this ->
  Forall (fun step => ok (fst step)) steps ->
  reachable_in ok (run steps this).
Proof.
  revert this. induction steps as [|step steps IH]; intros this Hthis Hok;
    [exact Hthis|].
  apply Forall_cons_iff in Hok as [Hstep Hsteps].
  apply IH; [|exact Hsteps]. now apply reachable_handle.
Qed.

Lemma browser_well_laid_out (config : ViewerConfigType Q) :
  well_laid_out (browser config).
Proof. repeat split; discriminate. Qed.

Lemma scenario_reachable :
  reachable_in well_laid_out (fitted (num := Q)) /\
  reachable_in well_laid_out (zoomed (num := Q)) /\
  reachable_in well_laid_out (grabbing (num := Q)).
Proof.
  assert (Hfitted : reachable_in well_laid_out (fitted (num := Q))).
  { apply run_reachable; [constructor|].
    repeat (constructor; [apply browser_well_laid_out|]). constructor. }
  assert (Hzoomed : reachable_in well_laid_out (zoomed (num := Q))).
  { apply run_reachable; [exact Hfitted|].
    repeat (constructor; [apply browser_well_laid_out|]). constructor. }
  repeat split; try assumption.
  apply run_reachable; [exact Hzoomed|].
  repeat (constructor; [apply browser_well_laid_out|]). constructor.
Qed.

Lemma grabbing_reachable {num} `{Number num} : reachable (grabbing (num := num)).
Proof.
  repeat (apply run_reachable; [|repeat constructor]). constructor.
Qed.

(** Picking on the all-black control buffer of the scenarios finds the
    background. *)
Example fetchHandleId_background :
  fetchHandleId (browser zoom_config)
    ({| x := lit 200; y := lit 150 |} : Vector2D PrimFloat.float) zoomed
  = ((-1)%Z, 0%Z).
Proof. vm_compute. reflexivity. Qed.

(** ** Rescaling *)

Lemma in_range_iff (v : Q) :
  ((v >=? MIN_SCALE) && (v <? MAX_SCALE))%num = true <-> 1 <= v /\ v < 3.
Proof.
  unfold MIN_SCALE, MAX_SCALE. simpl.
  rewrite andb_true_iff, Qle_bool_iff, Qltb_lt. reflexivity.
Qed.

Lemma updateScale_cases (env : Env Q) (canvas : CanvasRef) (upRes : bool)
    (this : Label2DView Q) :
  let v := viewScale (getCurrentViewerConfig env) in
  let this' := updateScale env canvas upRes this in
  this' = this \/ (scale this' = v /\ 1 <= v /\ v < 3).
Proof.
  cbn zeta.
  destruct (((viewScale (getCurrentViewerConfig env) >=? MIN_SCALE)
             && (viewScale (getCurrentViewerConfig env) <? MAX_SCALE))%num)
    eqn:Hrange; [|left; now apply updateScale_out_of_range].
  destruct (display this) as [d|] eqn:Hd;
    [|left; apply updateScale_unattached; auto].
  destruct (controlCanvas this) as [cc|] eqn:Hcc;
    [|left; apply updateScale_unattached; auto].
  destruct (controlContext this) as [ctx|] eqn:Hctx;
    [|left; apply updateScale_unattached; auto].
  right. split.
  - now apply (updateScale_applied env canvas upRes this d cc ctx).
  - now apply in_range_iff.
Qed.

Lemma updateScale_keeps_bounds (env : Env Q) (canvas : CanvasRef) (upRes : bool)
    (this : Label2DView Q) :
  1 <= scale this /\ scale this < 3 ->
  1 <= scale (updateScale env canvas upRes this) /\
  scale (updateScale env canvas upRes this) < 3.
Proof.
  intros Hinv. destruct (updateScale_cases env canvas upRes this) as [->|[-> Hv]];
    assumption.
Qed.

Lemma viewport_scale {num} (this' this : Label2DView num) :
  viewport this' = viewport this -> scale this' = scale this.
Proof. unfold viewport. congruence. Qed.

(** The bounds hold in every reachable state: the constructor sets [scale = 1]
    and only [updateScale] writes it. *)
Lemma reachable_scale_in_range (this : Label2DView Q) :
  reachable this -> 1 <= scale this /\ scale this < 3.
Proof.
  induction 1 as [|env ev this _ _ IH]; [split; [apply Qle_refl|reflexivity]|].
  destruct ev; simpl;
    try (unfold onKeyDown, onKeyUp, onDblClick, display_ref, background_ref;
         branches; exact IH; fail).
  - now rewrite (viewport_scale _ _ (proj1 (viewport_mouse env e this))).
  - now rewrite (viewport_scale _ _ (proj1 (proj2 (viewport_mouse env e this)))).
  - now rewrite (viewport_scale _ _
                   (proj1 (proj2 (proj2 (viewport_mouse env e this))))).
  - now rewrite (viewport_scale _ _
                   (proj1 (proj2 (proj2 (proj2 (viewport_mouse env e this)))))).
  - now rewrite (viewport_scale _ _
                   (proj2 (proj2 (proj2 (proj2 (viewport_mouse env e this)))))).
  - unfold controlCanvas_ref. branches; try exact IH.
    now apply updateScale_keeps_bounds.
  - unfold labelCanvas_ref. branches; try exact IH.
    now apply updateScale_keeps_bounds.
Qed.

(** C2. A rescale either leaves the component as it was or commits
    [scale = viewScale] with [1 <= viewScale < 3]; when the requested
    [viewScale] is outside that range nothing changes, so [scale],
    [canvasWidth], [canvasHeight] and [displayToImageRatio] keep their values,
    in particular for [viewScale = 0.5] and [viewScale = 3.0]; the bounds
    [1 <= scale < 3] are kept by every rescale, and they hold after a rescale
    in any state the component reaches. *)
Theorem updateScale_scale_bounds (env : Env Q) (canvas : CanvasRef) (upRes : bool)
    (this : Label2DView Q) :
  let v := viewScale (getCurrentViewerConfig env) in
  let this' := updateScale env canvas upRes this in
  (this' = this \/ (scale this' = v /\ 1 <= v /\ v < 3)) /\
  (~ (1 <= v /\ v < 3) -> this' = this /\ viewport this' = viewport this) /\
  (v == 1 # 2 \/ v == 3 -> this' = this /\ scale this' = scale this) /\
  (1 <= scale this /\ scale this < 3 -> 1 <= scale this' /\ scale this' < 3) /\
  (reachable this -> 1 <= scale this' /\ scale this' < 3).
Proof.
  cbn zeta.
  assert (Hout : ~ (1 <= viewScale (getCurrentViewerConfig env) /\
                    viewScale (getCurrentViewerConfig env) < 3) ->
                 updateScale env canvas upRes this = this).
  { intros Hn. apply updateScale_out_of_range.
    apply not_true_is_false. now rewrite in_range_iff. }
  split; [apply updateScale_cases|]. split; [|split; [|split]].
  - intros Hn. rewrite (Hout Hn). split; reflexivity.
  - intros Hv. rewrite Hout; [split; reflexivity|].
    intros [Hlo Hhi]. destruct Hv as [Hv|Hv]; rewrite Hv in *.
    + now apply Hlo.
    + now apply (Qlt_irrefl 3).
  - apply updateScale_keeps_bounds.
  - intros Hreach. now apply updateScale_keeps_bounds, reachable_scale_in_range.
Qed.

(** C6. A rescale that is applied fits the image into the container: when the
    container is relatively wider than the image, the height is fitted
    ([canvasHeight = containerHeight * viewScale]) and the width follows from
    the image's aspect ratio; otherwise the width is fitted and the height
    follows; [displayToImageRatio] is the fitted dimension over the image's.
    For a container of 800 x 600, an image of 400 x 300 and [viewScale = 2] the
    canvas is 1600 x 1200 and the ratio is 4. *)
Theorem updateScale_canvas_size (env : Env Q) (canvas : CanvasRef) (upRes : bool)
    (this : Label2DView Q) (d : HTMLDivElement Q) (cc : HTMLCanvasElement Q)
    (ctx : CanvasRenderingContext2D) :
  display this = Some d -> controlCanvas this = Some cc ->
  controlContext this = Some ctx ->
  let v := viewScale (getCurrentViewerConfig env) in
  let container := display_getBoundingClientRect env (dom this) in
  let image := Session_image env in
  1 <= v -> v < 3 ->
  0 < rect_height container -> 0 < size_width image -> 0 < size_height image ->
  let ratio := size_width image / size_height image in
  let this' := updateScale env canvas upRes this in
  (ratio < rect_width container / rect_height container ->
   canvasHeight this' = rect_height container * v /\
   canvasWidth this' = rect_height container * v * ratio /\
   displayToImageRatio this' = rect_height container * v / size_height image) /\
  (~ ratio < rect_width container / rect_height container ->
   canvasWidth this' = rect_width container * v /\
   canvasHeight this' = rect_width container * v / ratio /\
   displayToImageRatio this' = rect_width container * v / size_width image) /\
  (rect_width container = 800 -> rect_height container = 600 ->
   size_width image = 400 -> size_height image = 300 -> v = 2 ->
   canvasWidth this' == 1600 /\ canvasHeight this' == 1200 /\
   displayToImageRatio this' == 4).
Proof.
  intros Hd Hcc Hctx v container image Hlo Hhi _ _ _ ratio this'.
  assert (Hrange : ((v >=? MIN_SCALE) && (v <? MAX_SCALE))%num = true)
    by now apply in_range_iff.
  destruct (updateScale_applied env canvas upRes this d cc ctx Hd Hcc Hctx Hrange)
    as (_ & Hw & Hh & Hr & _).
  fold this' in Hw, Hh, Hr. rewrite Hw, Hh, Hr. clear Hw Hh Hr.
  unfold updateScale_resize. q_ops. fold container image v. fold ratio.
  split; [|split].
  - intros Hwide. apply Qltb_lt in Hwide. rewrite Hwide. repeat split.
  - intros Hnarrow.
    destruct (Qltb_spec ratio (rect_width container / rect_height container));
      [contradiction|]. repeat split.
  - unfold ratio. intros -> -> -> -> ->. repeat split.
Qed.

Lemma upperLeftCoords_Some (env : Env Q) (this : Label2DView Q) :
  1 < viewScale (getCurrentViewerConfig env) ->
  updateScale_upperLeftCoords env this = Some (getVisibleCanvasCoords env this).
Proof.
  intros Hv. unfold updateScale_upperLeftCoords. q_ops.
  apply Qltb_lt in Hv. now rewrite Hv.
Qed.

Lemma mouseOffset_Some (env : Env Q) (this : Label2DView Q)
    (cc : HTMLCanvasElement Q) :
  controlCanvas this = Some cc ->
  1 < viewScale (getCurrentViewerConfig env) ->
  exists mouseOffset, updateScale_mouseOffset env this = Some mouseOffset.
Proof.
  intros Hcc Hv. unfold updateScale_mouseOffset.
  rewrite (upperLeftCoords_Some env this Hv), Hcc.
  destruct (_ || _); eauto.
Qed.

Lemma display_set_scrollLeft_Some {num} (v : num) (this : Label2DView num)
    (d : HTMLDivElement num) :
  display this = Some d ->
  display_set_scrollLeft v this
  = set_display (Some {| scrollLeft := v; scrollTop := scrollTop d |}) this.
Proof. intros Hd. unfold display_set_scrollLeft. now rewrite Hd. Qed.

Lemma display_set_scrollTop_Some {num} (v : num) (this : Label2DView num)
    (d : HTMLDivElement num) :
  display this = Some d ->
  display_set_scrollTop v this
  = set_display (Some {| scrollLeft := scrollLeft d; scrollTop := v |}) this.
Proof. intros Hd. unfold display_set_scrollTop. now rewrite Hd. Qed.

(** The scroll position after the blocks that write it. *)
Lemma translate_display {num} `{Number num} (env : Env num) (mo : Vector2D num)
    (this : Label2DView num) (d : HTMLDivElement num) :
  display this = Some d ->
  let top := controlCanvas_offsetTop env (dom this) in
  let left := controlCanvas_offsetLeft env (dom (display_set_scrollTop top this)) in
  display (updateScale_translate env (Some mo) this)
  = Some {| scrollLeft := left; scrollTop := top |}.
Proof.
  intros Hd top left. unfold updateScale_translate. fold top.
  assert (Htop : display (display_set_scrollTop top this)
                 = Some {| scrollLeft := scrollLeft d; scrollTop := top |})
    by (unfold display_set_scrollTop; now rewrite Hd).
  unfold display_set_scrollLeft. now rewrite Htop.
Qed.

Lemma zoomToPoint_display {num} `{Number num} (r : DOMRect num) (z : num)
    (mo ul : Vector2D num) (this : Label2DView num) (d : HTMLDivElement num) :
  display this = Some d ->
  display (updateScale_zoomToPoint r z (Some mo) (Some ul) this)
  = Some {| scrollLeft :=
              if (canvasWidth this >? rect_width r)%num
              then (z * (x ul + x mo) - x mo)%num else scrollLeft d;
            scrollTop :=
              if (canvasHeight this >? rect_height r)%num
              then (z * (y ul + y mo) - y mo)%num else scrollTop d |}.
Proof.
  intros Hd. unfold updateScale_zoomToPoint.
  destruct (canvasWidth this >? rect_width r)%num.
  - rewrite (display_set_scrollLeft_Some _ _ _ Hd). simpl.
    destruct (canvasHeight this >? rect_height r)%num; [|reflexivity].
    now rewrite (display_set_scrollTop_Some _
                   (set_display (Some {| scrollLeft := (z * (x ul + x mo) - x mo)%num;
                                         scrollTop := scrollTop d |}) this)
                   _ eq_refl).
  - destruct (canvasHeight this >? rect_height r)%num; [|now rewrite Hd; destruct d].
    now rewrite (display_set_scrollTop_Some _ _ _ Hd).
Qed.

(** C5. In a rescale with an anchor ([viewScale > 1], so that the upper-left
    visible coordinates and the anchor's screen offset are computed), with zoom
    ratio [r = viewScale / scale], the scroll position becomes
    [r * (upperLeft + offset) - offset] on each axis on which the new canvas is
    larger than the container; on an axis on which it is not, the scroll
    position stays where the rescale reset it before ([offsetTop], then
    [offsetLeft], of the control canvas). *)
Theorem updateScale_zoom_to_point (env : Env Q) (canvas : CanvasRef) (upRes : bool)
    (this : Label2DView Q) (d : HTMLDivElement Q) (cc : HTMLCanvasElement Q)
    (ctx : CanvasRenderingContext2D) :
  display this = Some d -> controlCanvas this = Some cc ->
  controlContext this = Some ctx ->
  let v := viewScale (getCurrentViewerConfig env) in
  let container := display_getBoundingClientRect env (dom this) in
  1 < v -> v < 3 -> ~ scale this == 0 ->
  let r := v / scale this in
  let top0 := controlCanvas_offsetTop env (dom this) in
  let left0 := controlCanvas_offsetLeft env (dom (display_set_scrollTop top0 this)) in
  let this' := updateScale env canvas upRes this in
  exists (upperLeft offset : Vector2D Q) (d' : HTMLDivElement Q),
    updateScale_upperLeftCoords env this = Some upperLeft /\
    upperLeft = getVisibleCanvasCoords env this /\
    updateScale_mouseOffset env this = Some offset /\
    display this' = Some d' /\
    (rect_width container < canvasWidth this' ->
     scrollLeft d' = r * (x upperLeft + x offset) - x offset) /\
    (~ rect_width container < canvasWidth this' -> scrollLeft d' = left0) /\
    (rect_height container < canvasHeight this' ->
     scrollTop d' = r * (y upperLeft + y offset) - y offset) /\
    (~ rect_height container < canvasHeight this' -> scrollTop d' = top0).
Proof.
  intros Hd Hcc Hctx v container Hlo Hhi _ r top0 left0 this'.
  assert (Hrange : ((v >=? MIN_SCALE) && (v <? MAX_SCALE))%num = true).
  { apply in_range_iff. split; [now apply Qlt_le_weak|assumption]. }
  destruct (updateScale_applied env canvas upRes this d cc ctx Hd Hcc Hctx Hrange)
    as (_ & Hw & Hh & _ & Hdisplay).
  fold this' in Hw, Hh, Hdisplay.
  pose proof (upperLeftCoords_Some env this Hlo) as Hul.
  destruct (mouseOffset_Some env this cc Hcc Hlo) as [offset Hmo].
  rewrite Hul, Hmo in Hdisplay.
  set (resized := updateScale_resize env (display_getBoundingClientRect env (dom this))
                    (log (controlContext_scale (v / scale this) (v / scale this)) this))
    in *.
  destruct (resize_frame env (display_getBoundingClientRect env (dom this))
              (log (controlContext_scale (v / scale this) (v / scale this)) this))
    as (_ & Hdom & _).
  fold resized in Hdom. change (dom resized = dom this) in Hdom.
  assert (Hrd : display resized = Some d)
    by (apply (f_equal dom_display) in Hdom; simpl in Hdom; congruence).
  set (styled := updateScale_style env canvas
                   (updateScale_resolution canvas upRes
                      (updateScale_translate env (Some offset) resized))) in *.
  assert (Hstyled :
    display styled = Some {| scrollLeft := left0; scrollTop := top0 |} /\
    canvasWidth styled = canvasWidth this' /\
    canvasHeight styled = canvasHeight this').
  { unfold styled.
    rewrite (proj1 (proj2 (proj2 (style_frame _ _ _)))).
    rewrite (proj1 (proj2 (proj2 (resolution_frame _ _ _)))).
    rewrite (translate_display env offset resized d Hrd).
    pose proof (proj1 (proj2 (style_frame env canvas
                  (updateScale_resolution canvas upRes
                     (updateScale_translate env (Some offset) resized))))) as Hs.
    rewrite (proj1 (proj2 (resolution_frame _ _ _))) in Hs.
    rewrite (proj1 (proj2 (translate_frame _ _ _))) in Hs.
    unfold viewport in Hs. injection Hs as _ Hsw Hsh _.
    rewrite Hw, Hh. split; [|split; assumption].
    unfold left0, top0. rewrite Hdom. do 3 f_equal.
    unfold display_set_scrollTop, dom. rewrite Hrd, Hd. simpl.
    apply (f_equal dom_background) in Hdom as Hb.
    apply (f_equal dom_controlCanvas) in Hdom as Hc.
    apply (f_equal dom_labelCanvas) in Hdom as Hl.
    simpl in Hb, Hc, Hl. now rewrite Hb, Hc, Hl. }
  destruct Hstyled as (Hsd & Hsw & Hsh).
  rewrite (zoomToPoint_display _ _ _ _ _ _ Hsd), Hsw, Hsh in Hdisplay.
  q_ops. simpl in Hdisplay.
  eexists (getVisibleCanvasCoords env this), offset, _.
  split; [exact Hul|]. split; [reflexivity|].
  split; [exact Hmo|]. split; [exact Hdisplay|].
  fold container. simpl.
  destruct (Qltb_spec (rect_width container) (canvasWidth this'));
    destruct (Qltb_spec (rect_height container) (canvasHeight this'));
    repeat split; intros; try reflexivity; contradiction.
Qed.

Lemma updateScale_scale_bounds_witness :
  let half : Env Q :=
    browser {| viewScale := 1 # 2; viewOffsetX := 200; viewOffsetY := 150 |} in
  let three : Env Q :=
    browser {| viewScale := 3; viewOffsetX := 200; viewOffsetY := 150 |} in
  let rescaled := updateScale (browser zoom_config) TheControlCanvas true fitted in
  (updateScale half TheControlCanvas true zoomed = zoomed /\
   viewport (updateScale half TheControlCanvas true zoomed) = viewport zoomed) /\
  (updateScale three TheLabelCanvas true zoomed = zoomed /\
   scale (updateScale three TheLabelCanvas true zoomed) = scale zoomed) /\
  (1 <= scale rescaled /\ scale rescaled < 3).
Proof.
  intros half three rescaled.
  pose proof (updateScale_scale_bounds half TheControlCanvas true zoomed)
    as (_ & Hhalf & _ & _ & _).
  pose proof (updateScale_scale_bounds three TheLabelCanvas true zoomed)
    as (_ & _ & Hthree & _ & _).
  pose proof (updateScale_scale_bounds (browser zoom_config) TheControlCanvas true fitted)
    as (_ & _ & _ & Hkept & _).
  split; [|split].
  - apply Hhalf. intros [Hlo _]. now apply Hlo.
  - apply Hthree. right. reflexivity.
  - apply Hkept. vm_compute. split; [discriminate|reflexivity].
Defined.

Lemma updateScale_canvas_size_witness :
  let env : Env Q := browser zoom_config in
  let rescaled := updateScale env TheControlCanvas true fitted in
  canvasWidth rescaled == 1600 /\ canvasHeight rescaled == 1200 /\
  displayToImageRatio rescaled == 4.
Proof.
  intros env rescaled.
  assert (Hattached : exists d cc ctx,
             display (fitted (num := Q)) = Some d /\
             controlCanvas (fitted (num := Q)) = Some cc /\
             controlContext (fitted (num := Q)) = Some ctx)
    by (vm_compute; do 3 eexists; repeat split).
  destruct Hattached as (d & cc & ctx & Hd & Hcc & Hctx).
  assert (Hlo : 1 <= viewScale (getCurrentViewerConfig env)) by discriminate.
  assert (Hhi : viewScale (getCurrentViewerConfig env) < 3) by reflexivity.
  assert (Hh : 0 < rect_height (display_getBoundingClientRect env (dom fitted)))
    by reflexivity.
  assert (Hiw : 0 < size_width (Session_image env)) by reflexivity.
  assert (Hih : 0 < size_height (Session_image env)) by reflexivity.
  destruct (updateScale_canvas_size env TheControlCanvas true fitted d cc ctx
              Hd Hcc Hctx Hlo Hhi Hh Hiw Hih) as (_ & _ & Hscenario).
  exact (Hscenario eq_refl eq_refl eq_refl eq_refl eq_refl).
Defined.

Lemma updateScale_zoom_to_point_witness :
  let env : Env Q := browser zoom_config in
  let rescaled := updateScale env TheControlCanvas true fitted in
  exists d', display rescaled = Some d' /\ scrollLeft d' == 400 /\ scrollTop d' == 300.
Proof.
  intros env rescaled.
  assert (Hattached : exists d cc ctx,
             display (fitted (num := Q)) = Some d /\
             controlCanvas (fitted (num := Q)) = Some cc /\
             controlContext (fitted (num := Q)) = Some ctx)
    by (vm_compute; do 3 eexists; repeat split).
  destruct Hattached as (d & cc & ctx & Hd & Hcc & Hctx).
  assert (Hlo : 1 < viewScale (getCurrentViewerConfig env)) by reflexivity.
  assert (Hhi : viewScale (getCurrentViewerConfig env) < 3) by reflexivity.
  assert (Hscale : ~ scale (fitted (num := Q)) == 0) by (vm_compute; discriminate).
  destruct (updateScale_zoom_to_point env TheControlCanvas true fitted d cc ctx
              Hd Hcc Hctx Hlo Hhi Hscale)
    as (upperLeft & offset & d' & _ & Hul & Hoffset & Hd' & Hleft & _ & Htop & _).
  exists d'. split; [exact Hd'|].
  assert (Hwide : rect_width (display_getBoundingClientRect env (dom fitted))
                  < canvasWidth rescaled) by (vm_compute; reflexivity).
  assert (Hhigh : rect_height (display_getBoundingClientRect env (dom fitted))
                  < canvasHeight rescaled) by (vm_compute; reflexivity).
  rewrite (Hleft Hwide), (Htop Hhigh), Hul.
  revert Hoffset. vm_compute. intros [= <-]. split; reflexivity.
Defined.

(** ** The coordinate transforms *)

(** What the two transforms compose to: both multiply by [displayToImageRatio],
    so a round trip scales a point by its square. *)
Lemma toImageCoords_toCanvasCoords (p : Vector2D Q) (this : Label2DView Q) :
  let q := toImageCoords (toCanvasCoords p true this) true this in
  x q == x p * (displayToImageRatio this * displayToImageRatio this) /\
  y q == y p * (displayToImageRatio this * displayToImageRatio this).
Proof.
  unfold toImageCoords, toCanvasCoords, Vector2D_scale, UP_RES_RATIO. simpl.
  split; field.
Qed.

(** C1. The round trip through [toCanvasCoords] and [toImageCoords] (both with
    [upRes = true]) does not give the point back: in the spec's zoom scenario,
    where [displayToImageRatio] is 4, the image centre (200, 150) goes to
    (1600, 1200) on the canvas and comes back as (3200, 2400).  This holds in
    binary64 arithmetic, where every step is exact, and over the rationals, and
    the result is off by far more than 1e-9. *)
Theorem toImageCoords_toCanvasCoords_zoomed :
  let view : Label2DView PrimFloat.float := zoomed in
  let centre : Vector2D PrimFloat.float := {| x := lit 200; y := lit 150 |} in
  let back := toImageCoords (toCanvasCoords centre true view) true view in
  let viewQ : Label2DView Q := zoomed in
  let centreQ : Vector2D Q := {| x := 200; y := 150 |} in
  let backQ := toImageCoords (toCanvasCoords centreQ true viewQ) true viewQ in
  displayToImageRatio view = lit 4 /\
  toCanvasCoords centre true view = {| x := lit 1600; y := lit 1200 |} /\
  back = {| x := lit 3200; y := lit 2400 |} /\
  (x back - x centre)%num = lit 3000 /\
  x backQ == 3200 /\ y backQ == 2400 /\
  ~ Qabs (x backQ - x centreQ) <= 1 / 1000000000.
Proof.
  repeat split; try (vm_compute; reflexivity).
  vm_compute. intros Hle. apply Hle. reflexivity.
Qed.

(** ** The mouse position *)

Lemma clamp_bounds (a hi : Q) : 0 <= hi -> 0 <= Qmax 0 (Qmin a hi) <= hi.
Proof.
  intros Hhi. split.
  - apply Q.le_max_l.
  - apply Q.max_lub; [exact Hhi|apply Q.le_min_r].
Qed.

Lemma Qdiv_bounds (a hi r : Q) : 0 < r -> 0 <= a <= hi -> 0 <= a / r <= hi / r.
Proof.
  intros Hr [Hlo Hhi]. split.
  - apply Qle_shift_div_l; [exact Hr|]. now rewrite Qmult_0_l.
  - unfold Qdiv. apply Qmult_le_compat_r; [exact Hhi|].
    apply Qinv_le_0_compat. now apply Qlt_le_weak.
Qed.

Lemma Qdiv_pos (a b : Q) : 0 < a -> 0 < b -> 0 < a / b.
Proof.
  intros Ha Hb. apply Qlt_shift_div_l; [exact Hb|]. now rewrite Qmult_0_l.
Qed.

Lemma Qmult_pos (a b : Q) : 0 < a -> 0 < b -> 0 < a * b.
Proof. intros Ha Hb. rewrite <- (Qmult_0_l b). now apply Qmult_lt_compat_r. Qed.

Lemma updateScale_viewport_ok (env : Env Q) (canvas : CanvasRef) (upRes : bool)
    (this : Label2DView Q) :
  0 < rect_width (display_getBoundingClientRect env (dom this)) ->
  0 < rect_height (display_getBoundingClientRect env (dom this)) ->
  0 < size_width (Session_image env) -> 0 < size_height (Session_image env) ->
  viewport_ok this ->
  viewport_ok (updateScale env canvas upRes this).
Proof.
  intros Hdw Hdh Hiw Hih Hok.
  destruct (((viewScale (getCurrentViewerConfig env) >=? MIN_SCALE)
             && (viewScale (getCurrentViewerConfig env) <? MAX_SCALE))%num)
    eqn:Hrange; [|now rewrite updateScale_out_of_range].
  destruct (display this) as [d|] eqn:Hd;
    [|rewrite updateScale_unattached; auto].
  destruct (controlCanvas this) as [cc|] eqn:Hcc;
    [|rewrite updateScale_unattached; auto].
  destruct (controlContext this) as [ctx|] eqn:Hctx;
    [|rewrite updateScale_unattached; auto].
  destruct (updateScale_applied env canvas upRes this d cc ctx Hd Hcc Hctx Hrange)
    as (_ & Hw & Hh & Hr & _).
  unfold viewport_ok. rewrite Hw, Hh, Hr. clear Hw Hh Hr.
  apply in_range_iff in Hrange as [Hlo _].
  assert (Hv : 0 < viewScale (getCurrentViewerConfig env))
    by (apply Qlt_le_trans with 1; [reflexivity|exact Hlo]).
  pose proof (Qdiv_pos _ _ Hiw Hih) as Hratio.
  unfold updateScale_resize. q_ops.
  destruct (Qltb _ _); simpl.
  - pose proof (Qmult_pos _ _ Hdh Hv) as Hch.
    split; [|split].
    + apply Qlt_le_weak. now apply Qmult_pos.
    + now apply Qlt_le_weak.
    + now apply Qdiv_pos.
  - pose proof (Qmult_pos _ _ Hdw Hv) as Hcw.
    split; [|split].
    + now apply Qlt_le_weak.
    + apply Qlt_le_weak. now apply Qdiv_pos.
    + now apply Qdiv_pos.
Qed.

Lemma viewport_ok_viewport (this' this : Label2DView Q) :
  viewport this' = viewport this -> viewport_ok this -> viewport_ok this'.
Proof. unfold viewport, viewport_ok. intros [= _ -> -> ->]. auto. Qed.

(** A size that is not negative and passes the test [if (size)] is positive. *)
Lemma truthy_pos (a : Q) : 0 <= a -> truthy a = true -> 0 < a.
Proof.
  unfold truthy. q_ops. intros Hle Ht. apply orb_true_iff in Ht as [Ht|Ht].
  - now apply Qltb_lt.
  - apply Qltb_lt in Ht. exfalso. exact (Qlt_not_le _ _ Ht Hle).
Qed.

(** The canvas callbacks rescale only when the container has a size and the
    item is loaded. *)
Lemma canvas_ref_viewport_ok (env : Env Q) (canvas : CanvasRef)
    (this : Label2DView Q) :
  well_laid_out env -> viewport_ok this ->
  truthy (rect_width (display_getBoundingClientRect env (dom this)))
  && truthy (rect_height (display_getBoundingClientRect env (dom this)))
  && isItemLoaded env = true ->
  viewport_ok (updateScale env canvas true this).
Proof.
  intros (Hrect & Himage) Hok Htest.
  apply andb_true_iff in Htest as [Htest Hloaded].
  apply andb_true_iff in Htest as [Hw Hh].
  destruct (Hrect (dom this)) as [Hdw Hdh].
  destruct (Himage Hloaded) as [Hiw Hih].
  apply updateScale_viewport_ok; auto using truthy_pos.
Qed.

Lemma reachable_viewport_ok (this : Label2DView Q) :
  reachable_in well_laid_out this -> viewport_ok this.
Proof.
  induction 1 as [|env ev this Henv _ IH].
  - repeat split; [apply Qle_refl|apply Qle_refl].
  - destruct ev; simpl;
      try (unfold onKeyDown, onKeyUp, onDblClick, display_ref, background_ref;
           branches; exact IH; fail).
    + exact (viewport_ok_viewport _ _ (proj1 (viewport_mouse env e this)) IH).
    + exact (viewport_ok_viewport _ _
               (proj1 (proj2 (viewport_mouse env e this))) IH).
    + exact (viewport_ok_viewport _ _
               (proj1 (proj2 (proj2 (viewport_mouse env e this)))) IH).
    + exact (viewport_ok_viewport _ _
               (proj1 (proj2 (proj2 (proj2 (viewport_mouse env e this))))) IH).
    + exact (viewport_ok_viewport _ _
               (proj2 (proj2 (proj2 (proj2 (viewport_mouse env e this))))) IH).
    + unfold controlCanvas_ref.
      destruct canvas as [c|]; [|exact IH]. destruct (display this); [|exact IH].
      cbn zeta. destruct (_ && _) eqn:Htest; [|exact IH].
      now apply canvas_ref_viewport_ok.
    + unfold labelCanvas_ref.
      destruct canvas as [c|]; [|exact IH]. destruct (display this); [|exact IH].
      cbn zeta. destruct (_ && _) eqn:Htest; [|exact IH].
      now apply canvas_ref_viewport_ok.
Qed.

(** C7. With the display attached, whatever the client coordinates of the mouse
    event, [getMousePos] clamps both axes to [0, canvasWidth] x [0, canvasHeight]
    and then divides by [displayToImageRatio], so the position lies within
    [0, canvasWidth / ratio] x [0, canvasHeight / ratio].  This holds whenever
    the canvas size is non-negative and the ratio positive, which is so in every
    state the component reaches in a browser (where rectangles have no negative
    size and a loaded image has a positive one). *)
Theorem getMousePos_clamped (env : Env Q) (e : MouseEvent Q) (this : Label2DView Q)
    (d : HTMLDivElement Q) :
  display this = Some d ->
  viewport_ok this \/ reachable_in well_laid_out this ->
  let p := getMousePos env e this in
  (exists x1 y1 : Q,
      0 <= x1 <= canvasWidth this /\ 0 <= y1 <= canvasHeight this /\
      p = {| x := x1 / displayToImageRatio this; y := y1 / displayToImageRatio this |}) /\
  0 <= x p <= canvasWidth this / displayToImageRatio this /\
  0 <= y p <= canvasHeight this / displayToImageRatio this.
Proof.
  intros Hd Hok.
  assert (Hvp : viewport_ok this)
    by (destruct Hok as [Hok|Hok]; [exact Hok|now apply reachable_viewport_ok]).
  destruct Hvp as (Hw & Hh & Hr).
  unfold getMousePos. rewrite Hd. cbn zeta.
  set (x0 := (_ - _ + x _)%num). set (y0 := (_ - _ + y _)%num).
  pose proof (clamp_bounds x0 _ Hw) as Hx. pose proof (clamp_bounds y0 _ Hh) as Hy.
  split; [|split].
  - exists (Qmax 0 (Qmin x0 (canvasWidth this))),
           (Qmax 0 (Qmin y0 (canvasHeight this))).
    split; [exact Hx|]. split; [exact Hy|]. reflexivity.
  - exact (Qdiv_bounds _ _ _ Hr Hx).
  - exact (Qdiv_bounds _ _ _ Hr Hy).
Qed.

Lemma getMousePos_clamped_witness :
  let env : Env Q := browser zoom_config in
  let e : MouseEvent Q := mouse_at (-1000) 10000 in
  let p := getMousePos env e zoomed in
  0 <= x p <= canvasWidth zoomed / displayToImageRatio zoomed /\
  0 <= y p <= canvasHeight zoomed / displayToImageRatio zoomed.
Proof.
  intros env e p.
  destruct zoomed_attached as (d & _ & _ & _ & _ & Hd & _).
  exact (proj2 (getMousePos_clamped env e zoomed d Hd
                 (or_intror (proj1 (proj2 scenario_reachable))))).
Defined.

(** The clamped position in the scenario: a pointer far to the left of the
    container and far below it is reported at the left edge and the bottom edge
    of the image. *)
Example getMousePos_outside :
  getMousePos (browser zoom_config) (mouse_at (-1000) 10000) zoomed
  = ({| x := lit 0; y := lit 300 |} : Vector2D PrimFloat.float).
Proof. vm_compute. reflexivity. Qed.

(** ** Missing resources *)

(** C9. When a resource is missing nothing is raised: [fetchHandleId] returns
    the sentinel [(-1, 0)] when there is no control context;
    [getVisibleCanvasCoords] returns [(0, 0)] when the display or the control
    canvas is not attached; [getMousePos] returns [(0, 0)] when the display is
    not attached, and also in every reachable state in which the control canvas
    has not been attached (no rescale has happened then, so the canvas is still
    0 x 0 and the clamp brings every position to 0). *)
Theorem missing_resource_defaults (env : Env Q) (e : MouseEvent Q)
    (mousePos : Vector2D Q) (this : Label2DView Q) :
  (controlContext this = None -> fetchHandleId env mousePos this = ((-1)%Z, 0%Z)) /\
  (display this = None -> getMousePos env e this = {| x := 0; y := 0 |}) /\
  (display this = None \/ controlCanvas this = None ->
   getVisibleCanvasCoords env this = {| x := 0; y := 0 |}) /\
  (reachable this -> controlCanvas this = None ->
   x (getMousePos env e this) == 0 /\ y (getMousePos env e this) == 0).
Proof.
  split; [|split; [|split]].
  - intros Hn. unfold fetchHandleId. now rewrite Hn.
  - intros Hn. unfold getMousePos. now rewrite Hn.
  - intros [Hn|Hn]; unfold getVisibleCanvasCoords; rewrite Hn;
      [|destruct (display this)]; reflexivity.
  - intros Hreach Hn.
    destruct (reachable_never_rescaled this Hreach Hn) as (Hw & Hh & Hr).
    unfold getMousePos. destruct (display this); [|split; reflexivity].
    cbn zeta. rewrite Hw, Hh, Hr. q_ops. cbn [x y].
    split; unfold Qdiv; rewrite Qmult_1_r; apply Qle_antisym;
      try apply Q.le_max_l; apply Q.max_lub; try apply Qle_refl; apply Q.le_min_r.
Qed.

Lemma missing_resource_defaults_witness :
  let env := browser zoom_config in
  let e := mouse_at 40 30 in
  let p : Vector2D Q := {| x := 40; y := 30 |} in
  fetchHandleId env p constructor = ((-1)%Z, 0%Z) /\
  getMousePos env e constructor = {| x := 0; y := 0 |} /\
  getVisibleCanvasCoords env constructor = {| x := 0; y := 0 |} /\
  x (getMousePos env e (display_ref (Some new_div) constructor)) == 0 /\
  y (getMousePos env e (display_ref (Some new_div) constructor)) == 0.
Proof.
  intros env e p.
  pose proof (missing_resource_defaults env e p constructor) as (Hf & Hm & Hv & _).
  pose proof (missing_resource_defaults env e p (display_ref (Some new_div) constructor))
    as (_ & _ & _ & Hr).
  split; [exact (Hf eq_refl)|]. split; [exact (Hm eq_refl)|].
  split; [exact (Hv (or_introl eq_refl))|].
  apply Hr; [|reflexivity].
  exact (reachable_handle _ env (DisplayRef (Some new_div)) _ I
           (reachable_constructor _)).
Defined.

(** ** Redrawing *)

(** C10. [redraw] returns [true] in every state: when both canvases and both
    contexts are attached it clears the two canvases and has the labels
    redrawn; otherwise it does nothing at all, and still returns [true]. *)
Theorem redraw_returns_true (this : Label2DView Q) :
  fst (redraw this) = true /\
  (forall lc lctx cc cctx,
      labelCanvas this = Some lc -> labelContext this = Some lctx ->
      controlCanvas this = Some cc -> controlContext this = Some cctx ->
      calls (snd (redraw this)) =
      calls this ++
        [context_clearRect TheLabelCanvas (canvas_width lc) (canvas_height lc);
         context_clearRect TheControlCanvas (canvas_width cc) (canvas_height cc);
         labels_redraw (displayToImageRatio this * UP_RES_RATIO)%num]) /\
  (labelCanvas this = None \/ labelContext this = None \/
   controlCanvas this = None \/ controlContext this = None ->
   redraw this = (true, this)).
Proof.
  split; [apply redraw_true|]. split.
  - intros lc lctx cc cctx Hlc Hlctx Hcc Hcctx. unfold redraw.
    rewrite Hlc, Hlctx, Hcc, Hcctx. simpl. now rewrite <- !app_assoc.
  - unfold redraw. intros [Hn|[Hn|[Hn|Hn]]]; rewrite Hn; branches; reflexivity.
Qed.

Lemma redraw_returns_true_witness :
  fst (redraw (zoomed (num := Q))) = true /\
  redraw (constructor (num := Q)) = (true, constructor) /\
  exists lc cc,
    calls (snd (redraw (zoomed (num := Q)))) =
    calls zoomed ++
      [context_clearRect TheLabelCanvas (canvas_width lc) (canvas_height lc);
       context_clearRect TheControlCanvas (canvas_width cc) (canvas_height cc);
       labels_redraw (displayToImageRatio zoomed * UP_RES_RATIO)%num].
Proof.
  destruct zoomed_attached as (d & lc & lctx & cc & cctx & _ & Hlc & Hlctx & Hcc & Hcctx).
  pose proof (redraw_returns_true zoomed) as (Ht & Hc & _).
  pose proof (redraw_returns_true constructor) as (_ & _ & Hn).
  split; [exact Ht|]. split; [exact (Hn (or_introl eq_refl))|].
  exists lc, cc. exact (Hc lc lctx cc cctx Hlc Hlctx Hcc Hcctx).
Defined.

(** ** Grabbing and panning *)

Section Grab.
Context {num : Type} `{Number num}.
Implicit Types (this : Label2DView num) (env : Env num) (e : MouseEvent num).

(** The layout queries and the frame test read the DOM elements only. *)
Lemma getVisibleCanvasCoords_dom env this this' :
  dom this' = dom this ->
  getVisibleCanvasCoords env this' = getVisibleCanvasCoords env this.
Proof.
  intros Hdom. unfold getVisibleCanvasCoords. rewrite Hdom.
  apply (f_equal dom_display) in Hdom as Hd.
  apply (f_equal dom_controlCanvas) in Hdom as Hc.
  simpl in Hd, Hc. now rewrite Hd, Hc.
Qed.

Lemma isWithinFrame_dom env e this this' :
  dom this' = dom this -> isWithinFrame env e this' = isWithinFrame env e this.
Proof.
  intros Hdom. unfold isWithinFrame. rewrite Hdom.
  apply (f_equal dom_background) in Hdom as Hb. simpl in Hb. now rewrite Hb.
Qed.

Lemma redraw_dom this : dom (snd (redraw this)) = dom this.
Proof. unfold redraw, log, dom. branches; congruence. Qed.

(** A primary-button press inside the frame, with Control held and the control
    canvas larger than the container, starts a grab. *)
Lemma onMouseDown_grab env e this d cc :
  display this = Some d -> controlCanvas this = Some cc ->
  isWithinFrame env e this = true -> button e = 0%Z ->
  isKeyDown "Control" this = true ->
  (canvas_width cc >? rect_width (display_getBoundingClientRect env (dom this)))%num
  || (canvas_height cc >? rect_height (display_getBoundingClientRect env (dom this)))%num
  = true ->
  let this' := onMouseDown env e this in
  grab this' = (true, clientX e, clientY e, Some (getVisibleCanvasCoords env this')) /\
  _keyDownMap this' = _keyDownMap this /\
  display this' = display this /\
  controlCanvas this' = controlCanvas this /\
  calls this' = calls (snd (redraw this)).
Proof.
  intros Hd Hcc Hin Hb Hkey Hbig this'.
  set (T := set_startGrabY (clientY e) (set_startGrabX (clientX e)
              (set_isGrabbingImage true (setCursor "grabbing" this)))).
  assert (Hthis' : this' = snd (redraw
            (set_startGrabVisibleCoords (Some (getVisibleCanvasCoords env T)) T))).
  { unfold this', onMouseDown. rewrite Hin, Hb, Hkey, Hd, Hcc. simpl.
    now rewrite Hbig. }
  assert (Hcoords : getVisibleCanvasCoords env this' = getVisibleCanvasCoords env T).
  { apply getVisibleCanvasCoords_dom. now rewrite Hthis', redraw_dom. }
  rewrite Hcoords, Hthis'. unfold T, redraw, setCursor, log, grab.
  repeat split; branches; congruence.
Qed.

(** A move inside the frame during a grab, with Control held, scrolls the
    container to where the grab started minus the distance moved. *)
Lemma onMouseMove_pan env e this d start :
  display this = Some d ->
  isWithinFrame env e this = true ->
  isKeyDown "Control" this = true ->
  _isGrabbingImage this = true ->
  _startGrabVisibleCoords this = Some start ->
  let this' := onMouseMove env e this in
  display this' =
    Some {| scrollLeft := (x start - (clientX e - _startGrabX this))%num;
            scrollTop := (y start - (clientY e - _startGrabY this))%num |} /\
  grab this' = grab this /\ _keyDownMap this' = _keyDownMap this.
Proof.
  intros Hd Hin Hkey Hgrab Hstart. unfold onMouseMove.
  rewrite Hin, Hkey, Hgrab, Hd.
  unfold setCursor, redraw, log, grab, display_set_scrollLeft, display_set_scrollTop.
  repeat split; branches; simpl in *; congruence.
Qed.

(** A primary-button release inside the frame ends the grab. *)
Lemma onMouseUp_clears env e this :
  isWithinFrame env e this = true -> button e = 0%Z ->
  let this' := onMouseUp env e this in
  grab this' = (false, lit (-1), lit (-1), None) /\
  display this' = display this /\ _keyDownMap this' = _keyDownMap this.
Proof.
  intros Hin Hb. unfold onMouseUp. rewrite Hin, Hb.
  unfold redraw, log, grab. repeat split; branches; congruence.
Qed.

(** Without Control, or without a grab, a move does not scroll. *)
Lemma onMouseMove_no_pan env e this :
  isKeyDown "Control" this = false \/ _isGrabbingImage this = false ->
  display (onMouseMove env e this) = display this.
Proof.
  intros Hno. unfold onMouseMove, onMouseLeave, onMouseUp, setDefaultCursor,
    setCursor, redraw, log, display_set_scrollLeft, display_set_scrollTop.
  destruct Hno as [Hno|Hno]; branches; congruence.
Qed.

Lemma isKeyDown_onKeyUp key this : isKeyDown key (onKeyUp key this) = false.
Proof. unfold isKeyDown, onKeyUp. simpl. now rewrite lookup_delete_eq. Qed.

(** Leaving the frame: the keys are forgotten, and the release that follows is
    ignored when the event lies outside the frame or is not for the primary
    button. *)
Lemma onMouseLeave_keys env e this : _keyDownMap (onMouseLeave env e this) = ∅.
Proof. unfold onMouseLeave, onMouseUp, redraw, log. branches; reflexivity. Qed.

Lemma onMouseLeave_outside env e this :
  isWithinFrame env e this = false ->
  onMouseLeave env e this = set_keyDownMap ∅ this /\
  onMouseMove env e this = set_keyDownMap ∅ this.
Proof.
  intros Hout. unfold onMouseMove. rewrite Hout. simpl.
  unfold onMouseLeave, onMouseUp.
  rewrite (isWithinFrame_dom env e this (set_keyDownMap ∅ this) eq_refl), Hout.
  split; reflexivity.
Qed.

End Grab.

(** C8. The grab-pan scenario.  A primary-button mouse-down inside the frame,
    with Control (the pan modifier) held and the control canvas larger than the
    container in width or in height, starts a grab that records the client
    coordinates of the event and the visible canvas coordinates (the scroll
    offset of the canvas in the container) at that moment; a following
    mouse-move inside the frame, by [(dx, dy)] from where the grab started,
    sets the scroll position to the recorded offset minus [(dx, dy)]; a
    primary-button mouse-up inside the frame clears the grab record; and once
    Control is released a further mouse-move leaves the scroll position alone. *)
Theorem grab_pan_scenario (env0 env1 env2 env3 : Env Q)
    (down move up move' : MouseEvent Q) (this : Label2DView Q)
    (d : HTMLDivElement Q) (cc : HTMLCanvasElement Q) :
  display this = Some d -> controlCanvas this = Some cc ->
  isWithinFrame env0 down this = true -> button down = 0%Z ->
  isKeyDown "Control" this = true ->
  rect_width (display_getBoundingClientRect env0 (dom this)) < canvas_width cc \/
  rect_height (display_getBoundingClientRect env0 (dom this)) < canvas_height cc ->
  let grabbed := onMouseDown env0 down this in
  isWithinFrame env1 move grabbed = true ->
  let panned := onMouseMove env1 move grabbed in
  isWithinFrame env2 up panned = true -> button up = 0%Z ->
  let released := onMouseUp env2 up panned in
  let after := onMouseMove env3 move' (onKeyUp "Control" released) in
  let start := getVisibleCanvasCoords env0 grabbed in
  let dx := clientX move - clientX down in
  let dy := clientY move - clientY down in
  grab grabbed = (true, clientX down, clientY down, Some start) /\
  display panned = Some {| scrollLeft := x start - dx; scrollTop := y start - dy |} /\
  grab released = (false, -1, -1, None) /\
  display after = display released.
Proof.
  intros Hd Hcc Hin0 Hb0 Hkey Hbig grabbed Hin1 panned Hin2 Hb2 released after
    start dx dy.
  assert (Hbig' :
    (canvas_width cc >? rect_width (display_getBoundingClientRect env0 (dom this)))%num
    || (canvas_height cc >? rect_height (display_getBoundingClientRect env0 (dom this)))%num
    = true).
  { q_ops. apply orb_true_iff. now rewrite !Qltb_lt. }
  destruct (onMouseDown_grab env0 down this d cc Hd Hcc Hin0 Hb0 Hkey Hbig')
    as (Hgrab & Hkeys & Hdisplay & _).
  fold grabbed in Hgrab, Hkeys, Hdisplay. fold start in Hgrab.
  pose proof Hgrab as Hg. unfold grab in Hg. injection Hg as Hg1 Hg2 Hg3 Hg4.
  assert (Hkey1 : isKeyDown "Control" grabbed = true)
    by (unfold isKeyDown; now rewrite Hkeys).
  destruct (onMouseMove_pan env1 move grabbed d start
              (eq_trans Hdisplay Hd) Hin1 Hkey1 Hg1 Hg4) as (Hpan & _ & _).
  fold panned in Hpan. rewrite Hg2, Hg3 in Hpan.
  destruct (onMouseUp_clears env2 up panned Hin2 Hb2) as (Hclear & _ & _).
  fold released in Hclear.
  split; [exact Hgrab|]. split; [exact Hpan|]. split; [exact Hclear|].
  unfold after. rewrite onMouseMove_no_pan.
  - reflexivity.
  - left. apply isKeyDown_onKeyUp.
Qed.

Lemma grab_pan_scenario_witness :
  let env : Env Q := browser zoom_config in
  let down : MouseEvent Q := mouse_at 100 100 in
  let move : MouseEvent Q := mouse_at 90 120 in
  let this := onKeyDown "Control" zoomed in
  let grabbed := onMouseDown env down this in
  let panned := onMouseMove env move grabbed in
  let released := onMouseUp env move panned in
  let after := onMouseMove env (mouse_at 50 50) (onKeyUp "Control" released) in
  let start := getVisibleCanvasCoords env grabbed in
  let dx := clientX move - clientX down in
  let dy := clientY move - clientY down in
  (x start == 400 /\ y start == 300 /\ dx == -10 /\ dy == 20) /\
  grab grabbed = (true, clientX down, clientY down, Some start) /\
  display panned = Some {| scrollLeft := x start - dx; scrollTop := y start - dy |} /\
  grab released = (false, -1, -1, None) /\
  display after = display released.
Proof.
  intros env down move this grabbed panned released after start dx dy.
  split; [vm_compute; repeat split|].
  assert (Hattached : exists d cc,
             display this = Some d /\ controlCanvas this = Some cc /\
             rect_width (display_getBoundingClientRect env (dom this))
             < canvas_width cc)
    by (vm_compute; do 2 eexists; repeat split).
  destruct Hattached as (d & cc & Hd & Hcc & Hbig).
  assert (Hin0 : isWithinFrame env down this = true) by (vm_compute; reflexivity).
  assert (Hkey : isKeyDown "Control" this = true) by (vm_compute; reflexivity).
  assert (Hin1 : isWithinFrame env move grabbed = true) by (vm_compute; reflexivity).
  assert (Hin2 : isWithinFrame env move panned = true) by (vm_compute; reflexivity).
  exact (grab_pan_scenario env env env env down move move (mouse_at 50 50) this d cc
           Hd Hcc Hin0 eq_refl Hkey (or_introl Hbig) Hin1 Hin2 eq_refl).
Defined.

(** ** Leaving the frame *)

(** C3. A mouse-leave always clears the held keys, but it does not end a grab
    when its event lies outside the frame.  In the zoom scenario a grab is
    started at (100, 100) and the pointer then leaves the 800 x 600 frame at
    (900, 100): [onMouseLeave] empties the key map and hands over to
    [onMouseUp], which returns at once because the event is not within the
    frame, so the component is still grabbing and still holds the start of the
    grab.  The same happens when the loss of the frame is noticed by
    [onMouseMove].  The grab is live: when Control is pressed again, a mere move
    to (90, 120), with no button pressed, scrolls the container to
    (410, 280). *)
Theorem mouse_leave_keeps_grab :
  let env : Env PrimFloat.float := browser zoom_config in
  let outside : MouseEvent PrimFloat.float := mouse_at 900 100 in
  let left := onMouseLeave env outside grabbing in
  isWithinFrame env outside grabbing = false /\
  _keyDownMap left = ∅ /\
  _isGrabbingImage grabbing = true /\
  _isGrabbingImage left = true /\
  grab left = (true, lit 100, lit 100, Some {| x := lit 400; y := lit 300 |}) /\
  onMouseMove env outside grabbing = left /\
  display left = Some {| scrollLeft := lit 400; scrollTop := lit 300 |} /\
  display (onMouseMove env (mouse_at 90 120) (onKeyDown "Control" left))
  = Some {| scrollLeft := lit 410; scrollTop := lit 280 |}.
Proof. vm_compute. repeat split. Qed.

(** In general: outside the frame, or for another button than the primary one,
    a mouse-leave changes nothing but the key map. *)
Lemma onMouseLeave_ignored {num} `{Number num} (env : Env num) (e : MouseEvent num)
    (this : Label2DView num) :
  isWithinFrame env e this = false \/ button e <> 0%Z ->
  onMouseLeave env e this = set_keyDownMap ∅ this /\
  grab (onMouseLeave env e this) = grab this.
Proof.
  intros Hignored. assert (Heq : onMouseLeave env e this = set_keyDownMap ∅ this).
  { unfold onMouseLeave, onMouseUp.
    rewrite (isWithinFrame_dom env e this (set_keyDownMap ∅ this) eq_refl).
    destruct Hignored as [->|Hb]; [reflexivity|].
    apply Z.eqb_neq in Hb. rewrite Hb. now rewrite orb_true_r. }
  now rewrite Heq.
Qed.

(** * Further properties *)

(** ** What [mode] returns and what it leaves *)

Lemma occurrences_not_In (arr : list Z) (a : Z) :
  ~ In a arr -> occurrences arr a = 0%Z.
Proof.
  intros Hn. pose proof (occurrences_nonneg arr a) as Hge.
  destruct (Z.eq_dec (occurrences arr a) 0%Z) as [|Hne]; [assumption|].
  exfalso. apply Hn, occurrences_In. lia.
Qed.

Lemma Array_pop_last (l : list Z) (m : Z) (rest : list Z) :
  Array_pop l = (Some m, rest) -> l = rest ++ [m].
Proof.
  destruct l as [|a l]; [discriminate|]. unfold Array_pop. intros [= <- <-].
  exact (app_removelast_last a (l := a :: l) ltac:(discriminate)).
Qed.

Lemma Array_pop_None (l : list Z) (rest : list Z) :
  Array_pop l = (None, rest) -> l = [] /\ rest = [].
Proof. destruct l; [intros [= <-]; auto|discriminate]. Qed.

(** X1. [mode] of the empty array is [undefined]; of any other array, of
    whatever length, it is an element of the array that no value occurs more
    often than. *)
Theorem mode_most_frequent_element (arr : list Z) :
  mode [] = None /\
  (arr <> [] ->
   exists m, mode arr = Some m /\ In m arr /\
             forall a, (occurrences arr a <= occurrences arr m)%Z).
Proof.
  split; [reflexivity|]. intros Hne. rewrite mode_mode_rule. unfold mode_rule.
  destruct arr as [|b arr]; [contradiction|].
  destruct (latest_most_frequent_Some (occurrences (b :: arr)) b arr) as [m Hm].
  exists m. split; [exact Hm|].
  apply latest_most_frequent_max in Hm as [Hin Hmax]. split; [exact Hin|].
  intros a. destruct (in_dec Z.eq_dec a (b :: arr)) as [Ha|Ha].
  - now apply Hmax.
  - rewrite (occurrences_not_In _ _ Ha). apply occurrences_nonneg.
Qed.

Lemma mode_most_frequent_element_witness :
  exists m,
    mode [5; 3; 5; 3; 3; 9]%Z = Some m /\ In m [5; 3; 5; 3; 3; 9]%Z /\
    forall a, (occurrences [5; 3; 5; 3; 3; 9] a <= occurrences [5; 3; 5; 3; 3; 9] m)%Z.
Proof.
  apply (proj2 (mode_most_frequent_element [5; 3; 5; 3; 3; 9]%Z)). discriminate.
Defined.

(** X2. What [mode] does to the array it is given: the array is sorted by
    ascending frequency and its last element is popped off and returned, so
    the elements left, followed by the result, are a rearrangement of the
    original array in ascending order of frequency; nothing is left, and
    nothing returned, only for the empty array. *)
Theorem mode_in_place_rest (arr : list Z) (result : option Z) (rest : list Z) :
  mode_in_place arr = (result, rest) ->
  match result with
  | Some m =>
      Permutation arr (rest ++ [m]) /\
      StronglySorted (fun a b => (occurrences arr a <= occurrences arr b)%Z)
        (rest ++ [m])
  | None => arr = [] /\ rest = []
  end.
Proof.
  unfold mode_in_place. intros Hpop. destruct result as [m|].
  - apply Array_pop_last in Hpop. rewrite <- Hpop. split.
    + symmetry. apply Array_sort_Permutation.
    + apply Array_sort_ascending.
  - apply Array_pop_None in Hpop as [Hnil ->]. split; [|reflexivity].
    apply Permutation_nil. rewrite <- Hnil. apply Array_sort_Permutation.
Qed.

Lemma mode_in_place_rest_witness :
  Permutation [5; 3; 5; 3; 3; 9]%Z ([9; 5; 5; 3; 3] ++ [3])%Z /\
  StronglySorted
    (fun a b => (occurrences [5; 3; 5; 3; 3; 9] a <= occurrences [5; 3; 5; 3; 3; 9] b)%Z)
    ([9; 5; 5; 3; 3] ++ [3])%Z.
Proof.
  exact (mode_in_place_rest [5; 3; 5; 3; 3; 9]%Z (Some 3%Z) [9; 5; 5; 3; 3]%Z eq_refl).
Defined.

(** On the all-black control buffer of the scenarios every sample carries the
    index 0. *)
Lemma fetchHandleId_majority_witness :
  fetchHandleId (browser zoom_config)
    ({| x := lit 200; y := lit 150 |} : Vector2D PrimFloat.float) zoomed
  = decodeControlIndex 0.
Proof.
  assert (Hctx : controlContext (zoomed (num := PrimFloat.float)) = Some Context2D)
    by (vm_compute; reflexivity).
  assert (Hmaj :
    (16 < 2 * occurrences
              (map (fun i =>
                      rgbToIndex
                        (pixel_rgb
                           (controlContext_getImageData (browser zoom_config)
                              (calls (zoomed (num := PrimFloat.float)))
                              (x (toCanvasCoords {| x := lit 200; y := lit 150 |}
                                    true zoomed))
                              (y (toCanvasCoords {| x := lit 200; y := lit 150 |}
                                    true zoomed))) i))
                 (seq 0 16)) 0)%Z)
    by (vm_compute; reflexivity).
  exact (fetchHandleId_majority (browser zoom_config) {| x := lit 200; y := lit 150 |}
           zoomed Context2D 0%Z Hctx Hmaj).
Defined.

(** ** Keys, events that are ignored, and what the handlers leave alone *)

Section Handlers.
Context {num : Type} `{Number num}.
Implicit Types (this : Label2DView num) (env : Env num) (e : MouseEvent num)
  (ev : Event num).

(** X4. The key map follows the keyboard: a key is down after its key-down and
    not after its key-up, the other keys are where they were, no key is down
    after a mouse-leave, and none in a new component. *)
Theorem key_handlers_track_keys (key other : string) this :
  isKeyDown key (onKeyDown key this) = true /\
  isKeyDown key (onKeyUp key this) = false /\
  (other <> key ->
   isKeyDown other (onKeyDown key this) = isKeyDown other this /\
   isKeyDown other (onKeyUp key this) = isKeyDown other this) /\
  (forall env e, isKeyDown key (onMouseLeave env e this) = false) /\
  isKeyDown key constructor = false.
Proof.
  unfold isKeyDown, onKeyDown, onKeyUp. simpl.
  rewrite lookup_insert_eq, lookup_delete_eq. repeat split.
  - now rewrite lookup_insert_ne by congruence.
  - now rewrite lookup_delete_ne by congruence.
  - intros env e. now rewrite onMouseLeave_keys.
Qed.

(** X5. Events that are ignored.  Without a background element no event is
    within the frame.  A mouse-down or mouse-up outside the frame, or of
    another button than the primary one, changes nothing at all; a mouse-move
    or mouse-leave outside the frame only empties the key map; a wheel event
    outside the frame, or without Control, changes nothing; and a double click
    never changes anything. *)
Theorem mouse_events_ignored env e this :
  (background this = None -> isWithinFrame env e this = false) /\
  (isWithinFrame env e this = false \/ button e <> 0%Z ->
   onMouseDown env e this = this /\ onMouseUp env e this = this) /\
  (isWithinFrame env e this = false ->
   onMouseMove env e this = set_keyDownMap ∅ this /\
   onMouseLeave env e this = set_keyDownMap ∅ this) /\
  (isWithinFrame env e this = false \/ isKeyDown "Control" this = false ->
   onWheel env e this = this) /\
  onDblClick env e this = this.
Proof.
  split; [|split; [|split; [|split]]].
  - intros Hb. unfold isWithinFrame. now rewrite Hb.
  - intros Hignored. unfold onMouseDown, onMouseUp.
    destruct Hignored as [->|Hb]; [split; reflexivity|].
    apply Z.eqb_neq in Hb. rewrite Hb, orb_true_r. split; reflexivity.
  - intros Hout. destruct (onMouseLeave_outside env e this Hout). now split.
  - unfold onWheel. intros [->| ->]; [reflexivity|]. now destruct (negb _).
  - unfold onDblClick. now destruct (negb _).
Qed.

Lemma updateScale_grab env canvas upRes this :
  grab (updateScale env canvas upRes this) = grab this.
Proof.
  pose proof (updateScale_untouched env canvas upRes this) as Hu.
  unfold untouched in Hu. congruence.
Qed.

Lemma canvas_ref_grab env ev this :
  is_canvas_ref ev = true -> grab (handle env ev this) = grab this.
Proof.
  destruct ev; try discriminate; intros _; simpl;
    unfold controlCanvas_ref, labelCanvas_ref; branches;
    rewrite ?updateScale_grab; reflexivity.
Qed.

Lemma events_leave_fixtures env ev this :
  is_canvas_ref ev = false -> fixtures (handle env ev this) = fixtures this.
Proof.
  intros Hev.
  destruct ev; try discriminate Hev; unfold_handlers; branches;
    unfold fixtures, viewport, canvas_set_cursor; simpl in *;
    repeat match goal with H : labelCanvas _ = _ |- _ => progress rewrite H end;
    simpl; congruence.
Qed.

(** X6. Only the canvas callbacks of [render] rescale.  Every other event, a
    wheel event with Control included, leaves [scale], [canvasWidth],
    [canvasHeight] and [displayToImageRatio] as they are, as well as the
    control canvas and both contexts; of the label canvas it can change the
    cursor and nothing else. *)
Theorem events_leave_viewport_and_canvases env ev this :
  is_canvas_ref ev = false ->
  let this' := handle env ev this in
  viewport this' = viewport this /\
  controlCanvas this' = controlCanvas this /\
  controlContext this' = controlContext this /\
  labelContext this' = labelContext this /\
  option_map (canvas_set_cursor "") (labelCanvas this')
  = option_map (canvas_set_cursor "") (labelCanvas this).
Proof.
  intros Hev. cbn zeta.
  pose proof (events_leave_fixtures env ev this Hev) as Hf.
  unfold fixtures in Hf. repeat split; congruence.
Qed.

(** X7. The container is scrolled by nothing but a pan: when an event changes
    the display element or its scroll position, the event is the display's own
    [ref] callback, or a canvas callback (which may rescale), or a mouse-move
    inside the frame with Control held during a grab, and then the new scroll
    position is the recorded start minus the distance moved. *)
Theorem scroll_changes_only_by_pan env ev this :
  display (handle env ev this) <> display this ->
  (exists el, ev = DisplayRef (Some el)) \/
  is_canvas_ref ev = true \/
  (exists e start,
     ev = MouseMove e /\ isWithinFrame env e this = true /\
     isKeyDown "Control" this = true /\ _isGrabbingImage this = true /\
     _startGrabVisibleCoords this = Some start /\
     display (handle env ev this) =
       Some {| scrollLeft := (x start - (clientX e - _startGrabX this))%num;
               scrollTop := (y start - (clientY e - _startGrabY this))%num |}).
Proof.
  intros Hchanged.
  destruct ev;
    try (exfalso; apply Hchanged; unfold_handlers; branches; congruence);
    try (right; left; reflexivity).
  - (* mouse move *)
    right. right. simpl in *.
    destruct (isKeyDown "Control" this) eqn:Hkey;
      [|exfalso; apply Hchanged, onMouseMove_no_pan; now left].
    destruct (_isGrabbingImage this) eqn:Hgrab;
      [|exfalso; apply Hchanged, onMouseMove_no_pan; now right].
    destruct (isWithinFrame env e this) eqn:Hin;
      [|exfalso; apply Hchanged;
        now rewrite (proj2 (onMouseLeave_outside env e this Hin))].
    destruct (display this) as [d|] eqn:Hd;
      [|exfalso; apply Hchanged; unfold onMouseMove;
        rewrite Hin, Hkey, Hgrab, Hd; unfold redraw, log; branches; congruence].
    destruct (_startGrabVisibleCoords this) as [start|] eqn:Hstart;
      [|exfalso; apply Hchanged; unfold onMouseMove;
        rewrite Hin, Hkey, Hgrab, Hd; unfold setCursor, redraw, log;
        branches; simpl in *; congruence].
    exists e, start. repeat (split; [first [reflexivity|assumption]|]).
    now apply (onMouseMove_pan env e this d start).
  - (* display ref *)
    left. destruct element as [el|]; [now exists el|]. now elim Hchanged.
Qed.

Lemma input_events_attachment env ev this :
  match ev with
  | DisplayRef _ | BackgroundRef _ | ControlCanvasRef _ _ | LabelCanvasRef _ _ => True
  | _ =>
      (attached (display (handle env ev this)), background (handle env ev this))
      = (attached (display this), background this)
  end.
Proof.
  destruct ev; try exact I; unfold_handlers; branches; simpl in *;
    repeat match goal with H : display _ = _ |- _ => progress rewrite H end;
    simpl; congruence.
Qed.

Lemma updateScale_attached env canvas upRes this :
  attached (display (updateScale env canvas upRes this)) = attached (display this) /\
  background (updateScale env canvas upRes this) = background this /\
  attached (controlCanvas (updateScale env canvas upRes this))
  = attached (controlCanvas this) /\
  attached (labelCanvas (updateScale env canvas upRes this))
  = attached (labelCanvas this).
Proof.
  pose proof (updateScale_attachment env canvas upRes this) as Ha.
  pose proof (updateScale_untouched env canvas upRes this) as Hu.
  unfold attachment in Ha. unfold untouched in Hu. repeat split; congruence.
Qed.

Lemma updateScale_contexts env canvas upRes this :
  controlContext (updateScale env canvas upRes this) = controlContext this /\
  labelContext (updateScale env canvas upRes this) = labelContext this.
Proof.
  pose proof (updateScale_untouched env canvas upRes this) as Hu.
  unfold untouched in Hu. split; congruence.
Qed.

Lemma option_map_attached {A B} (f : A -> B) (o o' : option A) :
  option_map f o = option_map f o' -> attached o = attached o'.
Proof. destruct o, o'; simpl; congruence. Qed.

(** No event detaches an element. *)
Lemma handle_attached env ev this :
  let this' := handle env ev this in
  (attached (display this) = true -> attached (display this') = true) /\
  (attached (background this) = true -> attached (background this') = true) /\
  (attached (controlCanvas this) = true -> attached (controlCanvas this') = true) /\
  (attached (labelCanvas this) = true -> attached (labelCanvas this') = true).
Proof.
  cbn zeta.
  pose proof (input_events_attachment env ev this) as Hinput.
  pose proof (events_leave_fixtures env ev this) as Hfix. unfold fixtures in Hfix.
  destruct ev;
    try (specialize (Hfix eq_refl); repeat split; intros Ha; try congruence;
         destruct (labelCanvas (handle env _ this)), (labelCanvas this);
         simpl in *; congruence).
  - simpl. destruct element; simpl; auto.
  - simpl. destruct element; simpl; auto.
  - simpl. unfold controlCanvas_ref. branches;
      try match goal with
          | |- context [updateScale ?e ?c ?u ?t] =>
              destruct (updateScale_attached e c u t) as (-> & -> & -> & ->)
          end; simpl;
      repeat match goal with H : display _ = _ |- _ => progress rewrite H end;
      simpl; auto.
  - simpl. unfold labelCanvas_ref. branches;
      try match goal with
          | |- context [updateScale ?e ?c ?u ?t] =>
              destruct (updateScale_attached e c u t) as (-> & -> & -> & ->)
          end; simpl;
      repeat match goal with H : display _ = _ |- _ => progress rewrite H end;
      simpl; auto.
Qed.

(** X8. The [ref] callbacks ignore [null], and nothing else assigns the element
    fields: over any sequence of events, in whatever environments, an
    element that was attached is still attached, be it the display, the
    background or one of the canvases. *)
Theorem elements_stay_attached (steps : list (Env num * Event num)) this :
  let this' := run steps this in
  (attached (display this) = true -> attached (display this') = true) /\
  (attached (background this) = true -> attached (background this') = true) /\
  (attached (controlCanvas this) = true -> attached (controlCanvas this') = true) /\
  (attached (labelCanvas this) = true -> attached (labelCanvas this') = true).
Proof.
  cbn zeta. revert this. induction steps as [|[env ev] steps IH]; intros this.
  - simpl. repeat split; auto.
  - destruct (handle_attached env ev this) as (Hd & Hb & Hc & Hl).
    destruct (IH (handle env ev this)) as (Hd' & Hb' & Hc' & Hl').
    change (run ((env, ev) :: steps) this) with (run steps (handle env ev this)).
    repeat split; auto.
Qed.

Lemma attached_in_order_handle env ev this :
  attached_in_order this -> attached_in_order (handle env ev this).
Proof.
  unfold attached_in_order. intros (Hcc & Hlc & Hcctx & Hlctx).
  pose proof (input_events_attachment env ev this) as Hinput.
  pose proof (events_leave_fixtures env ev this) as Hfix. unfold fixtures in Hfix.
  assert (Hl : is_canvas_ref ev = false ->
               attached (labelCanvas (handle env ev this))
               = attached (labelCanvas this))
    by (intros Hev; apply (option_map_attached (canvas_set_cursor ""));
        specialize (Hfix Hev); congruence).
  destruct ev;
    try (specialize (Hfix eq_refl); specialize (Hl eq_refl);
         repeat split; intros Ha;
         [replace (attached (display (handle env _ this)))
            with (attached (display this)) by congruence;
          apply Hcc; congruence
         |replace (attached (display (handle env _ this)))
            with (attached (display this)) by congruence;
          apply Hlc; congruence
         |replace (controlCanvas (handle env _ this))
            with (controlCanvas this) by congruence;
          apply Hcctx; congruence
         |rewrite Hl; apply Hlctx; congruence]).
  - simpl. destruct element; simpl; auto.
  - simpl. destruct element; simpl; auto.
  - simpl. unfold controlCanvas_ref. branches; auto;
      try match goal with
          | |- context [updateScale ?e ?c ?u ?t] =>
              destruct (updateScale_attached e c u t) as (-> & _ & -> & ->);
              destruct (updateScale_contexts e c u t) as (-> & ->)
          end; simpl;
      repeat match goal with H : display _ = _ |- _ => progress rewrite H end;
      simpl; auto.
  - simpl. unfold labelCanvas_ref. branches; auto;
      try match goal with
          | |- context [updateScale ?e ?c ?u ?t] =>
              destruct (updateScale_attached e c u t) as (-> & _ & -> & ->);
              destruct (updateScale_contexts e c u t) as (-> & ->)
          end; simpl;
      repeat match goal with H : display _ = _ |- _ => progress rewrite H end;
      simpl; auto.
Qed.

(** X9. In every state the component reaches, a canvas is attached only if the
    display is (the canvas callbacks test [this.display]), and a 2D context
    only if its canvas is.  So of the three things [updateScale] asks for,
    the control context is the one that decides. *)
Theorem reachable_attached_in_order this : reachable this -> attached_in_order this.
Proof.
  induction 1 as [|env ev this _ _ IH].
  - repeat split; discriminate.
  - now apply attached_in_order_handle.
Qed.

Lemma grab_idle_handle env ev this : grab_idle this -> grab_idle (handle env ev this).
Proof.
  unfold grab_idle. intros Hinv.
  destruct ev;
    try (unfold_handlers; branches; unfold grab in *; simpl in *; intros;
         try congruence; auto; rewrite <- Hinv by congruence; congruence).
  - rewrite (canvas_ref_grab env (ControlCanvasRef canvas context) this eq_refl).
    intros Hg. apply Hinv.
    pose proof (canvas_ref_grab env (ControlCanvasRef canvas context) this eq_refl) as E.
    unfold grab in E. congruence.
  - rewrite (canvas_ref_grab env (LabelCanvasRef canvas context) this eq_refl).
    intros Hg. apply Hinv.
    pose proof (canvas_ref_grab env (LabelCanvasRef canvas context) this eq_refl) as E.
    unfold grab in E. congruence.
Qed.

(** X10. In every state the component reaches the grab record is in one of two
    shapes: as the constructor and [onMouseUp] leave it, not grabbing with
    [-1], [-1] and no coordinates, or grabbing with the coordinates of the
    start recorded. *)
Theorem reachable_grab_record this :
  reachable this ->
  grab this = (false, lit (-1), lit (-1), None) \/
  exists gx gy start, grab this = (true, gx, gy, Some start).
Proof.
  intros Hreach.
  assert (Hidle : grab_idle this).
  { induction Hreach as [|env ev this _ _ IH]; [intros _; reflexivity|].
    now apply grab_idle_handle. }
  pose proof (grab_records_start this Hreach) as Hstarted.
  unfold grab_idle, grab_started in *.
  destruct (_isGrabbingImage this) eqn:Hg; [right|left; now apply Hidle].
  destruct (_startGrabVisibleCoords this) as [start|] eqn:Hs;
    [|now elim Hstarted].
  exists (_startGrabX this), (_startGrabY this), start. unfold grab. congruence.
Qed.

(** X11. How a grab starts and how it ends.  The only event that starts one is
    a primary-button mouse-down inside the frame with Control held, the
    display and the control canvas attached and the canvas passing the size
    test; it records the event's client coordinates and the visible canvas
    coordinates.  The only events that end one are a mouse-up and a
    mouse-leave that are inside the frame and of the primary button; a
    mouse-move never ends a grab, wherever it is. *)
Theorem grab_starts_and_ends env ev this :
  let this' := handle env ev this in
  (_isGrabbingImage this = false -> _isGrabbingImage this' = true ->
   exists e cc,
     ev = MouseDown e /\ isWithinFrame env e this = true /\ button e = 0%Z /\
     isKeyDown "Control" this = true /\
     attached (display this) = true /\ controlCanvas this = Some cc /\
     ((canvas_width cc >? rect_width (display_getBoundingClientRect env (dom this)))
      || (canvas_height cc >? rect_height (display_getBoundingClientRect env (dom this))))%num
     = true /\
     grab this' = (true, clientX e, clientY e, Some (getVisibleCanvasCoords env this'))) /\
  (_isGrabbingImage this = true -> _isGrabbingImage this' = false ->
   exists e,
     (ev = MouseUp e \/ ev = MouseLeave e) /\
     isWithinFrame env e this = true /\ button e = 0%Z /\
     grab this' = (false, lit (-1), lit (-1), None)).
Proof.
  cbn zeta.
  assert (Hrefs : is_canvas_ref ev = true ->
                  _isGrabbingImage (handle env ev this) = _isGrabbingImage this).
  { intros Hev. pose proof (canvas_ref_grab env ev this Hev) as Hg.
    unfold grab in Hg. congruence. }
  split; intros Hbefore Hafter.
  - destruct ev;
      try (exfalso; revert Hafter; rewrite ?Hbefore; unfold_handlers;
           branches; congruence);
      try (specialize (Hrefs eq_refl); congruence).
    (* mouse down *)
    simpl in *. destruct (isWithinFrame env e this) eqn:Hin;
      [|unfold onMouseDown in Hafter; rewrite Hin in Hafter; simpl in Hafter;
        congruence].
    destruct (Z.eqb_spec (button e) 0) as [Hb|Hb];
      [|unfold onMouseDown in Hafter; rewrite Hin in Hafter;
        apply Z.eqb_neq in Hb; rewrite Hb in Hafter; simpl in Hafter; congruence].
    destruct (isKeyDown "Control" this) eqn:Hkey;
      [|exfalso; revert Hafter; unfold onMouseDown, redraw, log;
        rewrite Hin, Hb, Hkey; branches; congruence].
    destruct (display this) as [d|] eqn:Hd;
      [|exfalso; revert Hafter; unfold onMouseDown, redraw, log;
        rewrite Hin, Hb, Hkey, Hd; branches; congruence].
    destruct (controlCanvas this) as [cc|] eqn:Hcc;
      [|exfalso; revert Hafter; unfold onMouseDown, redraw, log;
        rewrite Hin, Hb, Hkey, Hd, Hcc; branches; congruence].
    destruct ((canvas_width cc >? rect_width (display_getBoundingClientRect env (dom this)))
       || (canvas_height cc >? rect_height (display_getBoundingClientRect env (dom this))))%num
      eqn:Hbig;
      [|exfalso; revert Hafter; unfold onMouseDown, redraw, log;
        rewrite Hin, Hb, Hkey, Hd, Hcc; simpl; rewrite Hbig; branches; congruence].
    exists e, cc. repeat (split; [first [reflexivity|assumption]|]).
    now apply (onMouseDown_grab env e this d cc).
  - destruct ev;
      try (exfalso; revert Hafter; rewrite ?Hbefore; unfold_handlers;
           branches; congruence);
      try (specialize (Hrefs eq_refl); congruence).
    + (* mouse up *)
      simpl in *. exists e.
      destruct (isWithinFrame env e this) eqn:Hin;
        [|unfold onMouseUp in Hafter; rewrite Hin in Hafter; simpl in Hafter;
          congruence].
      destruct (Z.eqb_spec (button e) 0) as [Hb|Hb];
        [|unfold onMouseUp in Hafter; rewrite Hin in Hafter;
          apply Z.eqb_neq in Hb; rewrite Hb in Hafter; simpl in Hafter; congruence].
      repeat split; auto. now apply onMouseUp_clears.
    + (* mouse leave *)
      simpl in *. exists e.
      destruct (isWithinFrame env e this) eqn:Hin;
        [|rewrite (proj1 (onMouseLeave_outside env e this Hin)) in Hafter;
          simpl in Hafter; congruence].
      destruct (Z.eqb_spec (button e) 0) as [Hb|Hb].
      * repeat split; auto. unfold onMouseLeave.
        apply onMouseUp_clears; [|exact Hb].
        now rewrite (isWithinFrame_dom env e this (set_keyDownMap ∅ this) eq_refl).
      * exfalso. revert Hafter. unfold onMouseLeave, onMouseUp.
        apply Z.eqb_neq in Hb. rewrite Hb, orb_true_r. simpl. congruence.
    + (* mouse move *)
      exfalso. simpl in *. destruct (isWithinFrame env e this) eqn:Hin.
      * revert Hafter. unfold onMouseMove. rewrite Hin. simpl.
        unfold setDefaultCursor, setCursor, redraw, log, display_set_scrollLeft,
          display_set_scrollTop. branches; simpl in *; congruence.
      * rewrite (proj2 (onMouseLeave_outside env e this Hin)) in Hafter.
        simpl in Hafter. congruence.
Qed.

Lemma grab_has_display_handle env ev this :
  grab_has_display this -> grab_has_display (handle env ev this).
Proof.
  unfold grab_has_display. intros Hinv.
  destruct ev;
    try (unfold_handlers; branches; simpl in *; intros;
         try (specialize (Hinv ltac:(congruence)));
         repeat match goal with H : display _ = _ |- _ => progress rewrite H end;
         simpl; congruence).
  - pose proof (canvas_ref_grab env (ControlCanvasRef canvas context) this eq_refl) as Hg.
    destruct (handle_attached env (ControlCanvasRef canvas context) this)
      as (Hd & _).
    unfold grab in Hg. intros Hgrab. apply Hd, Hinv. congruence.
  - pose proof (canvas_ref_grab env (LabelCanvasRef canvas context) this eq_refl) as Hg.
    destruct (handle_attached env (LabelCanvasRef canvas context) this)
      as (Hd & _).
    unfold grab in Hg. intros Hgrab. apply Hd, Hinv. congruence.
Qed.

Lemma reachable_grab_has_display this : reachable this -> grab_has_display this.
Proof.
  induction 1 as [|env ev this _ _ IH]; [discriminate|].
  now apply grab_has_display_handle.
Qed.

(** X12. The cursor a mouse-move inside the frame leaves on the label canvas, in
    any state the component reaches: "grabbing" during a grab with Control
    held, "grab" with Control held and no grab, "crosshair" without Control;
    the rest of the element is as it was.  (During a grab the display is
    attached, so the branch that would leave the cursor alone is not taken.) *)
Theorem onMouseMove_cursor env e this lc :
  reachable this -> labelCanvas this = Some lc ->
  isWithinFrame env e this = true ->
  labelCanvas (onMouseMove env e this)
  = Some (canvas_set_cursor
            (if isKeyDown "Control" this
             then if _isGrabbingImage this then "grabbing" else "grab"
             else "crosshair") lc).
Proof.
  intros Hreach Hlc Hin. apply reachable_grab_has_display in Hreach.
  unfold grab_has_display in Hreach. unfold onMouseMove. rewrite Hin. simpl.
  destruct (isKeyDown "Control" this).
  - destruct (_isGrabbingImage this) eqn:Hg.
    + specialize (Hreach eq_refl). destruct (display this) eqn:Hd; [|discriminate].
      unfold setCursor, redraw, log, display_set_scrollLeft, display_set_scrollTop.
      rewrite Hlc. branches; simpl in *; congruence.
    + unfold setCursor, redraw, log. rewrite Hlc. branches; reflexivity.
  - unfold setDefaultCursor, setCursor, redraw, log. rewrite Hlc.
    branches; reflexivity.
Qed.

End Handlers.

Lemma key_handlers_track_keys_witness :
  isKeyDown "Shift" (onKeyDown "Control" (onKeyDown "Shift" (constructor (num := Q))))
  = isKeyDown "Shift" (onKeyDown "Shift" (constructor (num := Q))).
Proof.
  apply (proj1 (proj2 (proj2 (key_handlers_track_keys "Control" "Shift"
                                (onKeyDown "Shift" constructor))))).
  discriminate.
Defined.

Lemma mouse_events_ignored_witness :
  let e : MouseEvent Q := mouse_at 900 100 in
  onMouseDown (browser zoom_config) e zoomed = zoomed /\
  onMouseUp (browser zoom_config) e zoomed = zoomed.
Proof.
  intros e.
  assert (Hout : isWithinFrame (browser zoom_config) e zoomed = false)
    by (vm_compute; reflexivity).
  exact (proj1 (proj2 (mouse_events_ignored (browser zoom_config) e zoomed))
           (or_introl Hout)).
Defined.

Lemma events_leave_viewport_and_canvases_witness :
  let this' := handle (browser zoom_config) (MouseMove (mouse_at 90 120))
                 (grabbing (num := Q)) in
  viewport this' = viewport grabbing /\ controlCanvas this' = controlCanvas grabbing.
Proof.
  cbv zeta.
  destruct (events_leave_viewport_and_canvases (browser zoom_config)
              (MouseMove (mouse_at 90 120)) (grabbing (num := Q)) eq_refl)
    as (Hv & Hc & _).
  split; [exact Hv|exact Hc].
Defined.

Lemma scroll_changes_only_by_pan_witness :
  exists e start,
    MouseMove (mouse_at 90 120) = MouseMove e /\
    _startGrabVisibleCoords (grabbing (num := Q)) = Some start /\
    display (handle (browser zoom_config) (MouseMove (mouse_at 90 120)) grabbing)
    = Some {| scrollLeft := (x start - (clientX e - _startGrabX grabbing))%num;
              scrollTop := (y start - (clientY e - _startGrabY grabbing))%num |}.
Proof.
  assert (Hchanged :
    display (handle (browser zoom_config) (MouseMove (mouse_at 90 120))
               (grabbing (num := Q))) <> display grabbing)
    by (vm_compute; discriminate).
  destruct (scroll_changes_only_by_pan (browser zoom_config)
              (MouseMove (mouse_at 90 120)) grabbing Hchanged)
    as [[el Hev]|[Hev|(e & start & Hev & _ & _ & _ & Hstart & Hscroll)]];
    [discriminate Hev|discriminate Hev|].
  exists e, start. split; [exact Hev|]. split; [exact Hstart|exact Hscroll].
Defined.

Lemma elements_stay_attached_witness :
  attached (display (run (rerender (browser zoom_config) fitted) (fitted (num := Q))))
  = true.
Proof.
  assert (Hd : attached (display (fitted (num := Q))) = true)
    by (vm_compute; reflexivity).
  exact (proj1 (elements_stay_attached (rerender (browser zoom_config) fitted) fitted) Hd).
Defined.

Lemma reachable_attached_in_order_witness : attached_in_order (grabbing (num := Q)).
Proof. exact (reachable_attached_in_order grabbing grabbing_reachable). Defined.

Lemma reachable_grab_record_witness :
  grab (grabbing (num := Q)) = (false, lit (-1), lit (-1), None) \/
  exists gx gy start, grab (grabbing (num := Q)) = (true, gx, gy, Some start).
Proof. exact (reachable_grab_record grabbing grabbing_reachable). Defined.

Lemma grab_starts_and_ends_witness :
  let env : Env Q := browser zoom_config in
  (exists e cc,
      MouseDown (mouse_at 100 100) = MouseDown e /\
      isWithinFrame env e control_held = true /\ button e = 0%Z /\
      isKeyDown "Control" (control_held (num := Q)) = true /\
      attached (display (control_held (num := Q))) = true /\
      controlCanvas control_held = Some cc /\
      ((canvas_width cc
        >? rect_width (display_getBoundingClientRect env (dom control_held)))
       || (canvas_height cc
           >? rect_height (display_getBoundingClientRect env (dom control_held))))%num
      = true /\
      grab (handle env (MouseDown (mouse_at 100 100)) control_held)
      = (true, clientX e, clientY e,
         Some (getVisibleCanvasCoords env
                 (handle env (MouseDown (mouse_at 100 100)) control_held)))) /\
  (exists e,
      (MouseUp (mouse_at 90 120) = MouseUp e \/ MouseUp (mouse_at 90 120) = MouseLeave e) /\
      isWithinFrame env e grabbing = true /\ button e = 0%Z /\
      grab (handle env (MouseUp (mouse_at 90 120)) grabbing)
      = (false, lit (-1), lit (-1), None)).
Proof.
  cbv zeta.
  assert (Hidle : _isGrabbingImage (control_held (num := Q)) = false)
    by (vm_compute; reflexivity).
  assert (Hstarted :
    _isGrabbingImage (handle (browser zoom_config) (MouseDown (mouse_at 100 100))
                        (control_held (num := Q))) = true)
    by (vm_compute; reflexivity).
  assert (Hgrabbing : _isGrabbingImage (grabbing (num := Q)) = true)
    by (vm_compute; reflexivity).
  assert (Hended :
    _isGrabbingImage (handle (browser zoom_config) (MouseUp (mouse_at 90 120))
                        (grabbing (num := Q))) = false)
    by (vm_compute; reflexivity).
  split.
  - exact (proj1 (grab_starts_and_ends (browser zoom_config)
                    (MouseDown (mouse_at 100 100)) control_held) Hidle Hstarted).
  - exact (proj2 (grab_starts_and_ends (browser zoom_config)
                    (MouseUp (mouse_at 90 120)) grabbing) Hgrabbing Hended).
Defined.

Lemma onMouseMove_cursor_witness :
  exists lc,
    labelCanvas (grabbing (num := Q)) = Some lc /\
    labelCanvas (onMouseMove (browser zoom_config) (mouse_at 90 120) grabbing)
    = Some (canvas_set_cursor
              (if isKeyDown "Control" (grabbing (num := Q))
               then if _isGrabbingImage (grabbing (num := Q)) then "grabbing" else "grab"
               else "crosshair") lc).
Proof.
  assert (Hlc : exists lc, labelCanvas (grabbing (num := Q)) = Some lc)
    by (vm_compute; eexists; reflexivity).
  destruct Hlc as [lc Hlc]. exists lc. split; [exact Hlc|].
  assert (Hin : isWithinFrame (browser zoom_config) (mouse_at 90 120)
                  (grabbing (num := Q)) = true) by (vm_compute; reflexivity).
  exact (onMouseMove_cursor (browser zoom_config) (mouse_at 90 120) grabbing lc
           grabbing_reachable Hlc Hin).
Defined.

(** ** Padding and what a rescale writes to the canvas *)





Section Written.
Context {num : Type} `{Number num}.
Implicit Types (this : Label2DView num) (env : Env num).



Lemma blocks_calls env (r : DOMRect num) (z : num)
    (mo ul : option (Vector2D num)) (canvas : CanvasRef) (upRes : bool) this :
  calls (updateScale_resize env r this) = calls this /\
  calls (updateScale_translate env mo this) = calls this /\
  calls (updateScale_resolution canvas upRes this) = calls this /\
  calls (updateScale_style env canvas this) = calls this /\
  calls (updateScale_zoomToPoint r z mo ul this) = calls this.
Proof.
  unfold updateScale_resize, updateScale_translate, updateScale_resolution,
    updateScale_style, updateScale_zoomToPoint, update_canvas,
    display_set_scrollLeft, display_set_scrollTop.
  repeat split; branches; congruence.
Qed.

(** The only call a rescale makes is [controlContext.scale]. *)
Lemma updateScale_calls env (canvas : CanvasRef) (upRes : bool) this :
  calls (updateScale env canvas upRes this) = calls this \/
  exists z, calls (updateScale env canvas upRes this)
            = calls this ++ [controlContext_scale z z].
Proof.
  unfold updateScale.
  destruct (display this), (controlCanvas this), (controlContext this); auto.
  destruct (_ && _); auto. right. cbn zeta.
  change (calls (set_scale ?v ?t)) with (calls t).
  rewrite (proj2 (proj2 (proj2 (proj2 (blocks_calls env _ _ _ _ canvas upRes _))))).
  rewrite (proj1 (proj2 (proj2 (proj2 (blocks_calls env
             (display_getBoundingClientRect env (dom this)) (lit 0) None None
             canvas upRes _))))).
  rewrite (proj1 (proj2 (proj2 (blocks_calls env
             (display_getBoundingClientRect env (dom this)) (lit 0) None None
             canvas upRes _)))).
  rewrite (proj1 (proj2 (blocks_calls env
             (display_getBoundingClientRect env (dom this)) (lit 0) _ None
             canvas upRes _))).
  rewrite (proj1 (blocks_calls env _ (lit 0) None None canvas upRes _)).
  eexists. reflexivity.
Qed.

End Written.



(** ** The fitted canvas *)









(** ** The anchor of a zoom *)




(** ** Positions handed to the picker and to the labels *)

Lemma getMousePos_in_image (env : Env Q) (e : MouseEvent Q) (this : Label2DView Q) :
  viewport_ok this -> in_image this (getMousePos env e this).
Proof.
  intros (Hw & Hh & Hr). unfold in_image, getMousePos.
  destruct (display this).
  - cbn zeta. split; apply Qdiv_bounds; auto using clamp_bounds.
  - simpl. split; (split; [apply Qle_refl|]); apply Qle_shift_div_l; auto;
      now rewrite Qmult_0_l.
Qed.



(** X19. The trace only grows, and the labels are only ever handed positions
    inside the image: whatever the event, the calls it makes are appended to
    those made before, and every [onMouseDown], [onMouseUp] and [onMouseMove]
    among them carries a position within [0, canvasWidth / ratio] by
    [0, canvasHeight / ratio]. *)
Theorem handlers_report_positions_in_image (env : Env Q) (ev : Event Q)
    (this : Label2DView Q) :
  viewport_ok this ->
  exists new,
    calls (handle env ev this) = calls this ++ new /\
    Forall (call_in_image this) new.
Proof.
  intros Hok.
  assert (Hrescale : forall canvas upRes t,
             calls t = calls this ->
             exists new,
               calls (updateScale env canvas upRes t) = calls this ++ new /\
               Forall (call_in_image this) new).
  { intros canvas upRes t <-.
    destruct (updateScale_calls env canvas upRes t) as [->|[z ->]].
    - exists []. now rewrite app_nil_r.
    - eexists. split; [reflexivity|]. repeat constructor. }
  destruct ev;
    try (unfold_handlers; branches; rewrite <- ?app_assoc;
         first [exists []; rewrite app_nil_r; split; [reflexivity|constructor]
               |eexists; split; [reflexivity|]; cbn [app];
                repeat match goal with
                       | |- Forall _ (_ :: _) => constructor
                       | |- Forall _ [] => constructor
                       end;
                first [exact I
                      |match goal with
                       | |- call_in_image _ (_ (getMousePos ?env ?e ?t) _ _) =>
                           exact (getMousePos_in_image env e t Hok)
                       | |- call_in_image _ (_ (getMousePos ?env ?e ?t) _ _ _) =>
                           exact (getMousePos_in_image env e t Hok)
                       end]]).
  - simpl. unfold controlCanvas_ref. branches;
      try (exists []; rewrite app_nil_r; split; [reflexivity|constructor]).
    now apply Hrescale.
  - simpl. unfold labelCanvas_ref. branches;
      try (exists []; rewrite app_nil_r; split; [reflexivity|constructor]).
    now apply Hrescale.
Qed.

Lemma handlers_report_positions_in_image_witness :
  exists new,
    calls (handle (browser zoom_config) (MouseDown (mouse_at (-1000) 10000))
             (zoomed (num := Q)))
    = calls zoomed ++ new /\
    Forall (call_in_image zoomed) new.
Proof.
  assert (Hok : viewport_ok (zoomed (num := Q)))
    by (vm_compute; repeat split; discriminate).
  exact (handlers_report_positions_in_image (browser zoom_config)
           (MouseDown (mouse_at (-1000) 10000)) zoomed Hok).
Defined.




(** X21. With both canvases and both contexts attached, [redraw] clears the
    label canvas, then the control canvas, each over its whole resolution,
    then has the labels redrawn, and changes nothing else; the ratio it hands
    to the labels is the factor by which [toCanvasCoords(p, true)] scales an
    image point, so that the picker reads the control buffer where the labels
    were drawn. *)
Theorem redraw_draws_at_the_picking_scale (this : Label2DView Q)
    (lc cc : HTMLCanvasElement Q) (lctx cctx : CanvasRenderingContext2D) :
  labelCanvas this = Some lc -> labelContext this = Some lctx ->
  controlCanvas this = Some cc -> controlContext this = Some cctx ->
  exists ratio,
    calls (snd (redraw this))
    = calls this
      ++ [context_clearRect TheLabelCanvas (canvas_width lc) (canvas_height lc);
          context_clearRect TheControlCanvas (canvas_width cc) (canvas_height cc);
          labels_redraw ratio] /\
    dom (snd (redraw this)) = dom this /\
    viewport (snd (redraw this)) = viewport this /\
    forall p : Vector2D Q,
      x (toCanvasCoords p true this) == x p * ratio /\
      y (toCanvasCoords p true this) == y p * ratio.
Proof.
  intros Hlc Hlctx Hcc Hcctx. unfold redraw. rewrite Hlc, Hlctx, Hcc, Hcctx.
  eexists. split; [unfold log; simpl; now rewrite <- !app_assoc|].
  split; [reflexivity|]. split; [reflexivity|].
  intros p. unfold toCanvasCoords, Vector2D_scale. q_ops. simpl. split; ring.
Qed.

Lemma redraw_draws_at_the_picking_scale_witness :
  exists ratio,
    (exists before, calls (snd (redraw (zoomed (num := Q))))
                    = calls (zoomed (num := Q)) ++ before ++ [labels_redraw ratio]) /\
    x (toCanvasCoords {| x := 200; y := 150 |} true (zoomed (num := Q))) == 200 * ratio.
Proof.
  destruct zoomed_attached as (d & lc & lctx & cc & cctx & _ & Hlc & Hlctx & Hcc & Hcctx).
  destruct (redraw_draws_at_the_picking_scale zoomed lc cc lctx cctx Hlc Hlctx Hcc Hcctx)
    as (ratio & Hcalls & _ & _ & Hscale).
  exists ratio. split.
  - eexists [_; _]. exact Hcalls.
  - exact (proj1 (Hscale {| x := 200; y := 150 |})).
Defined.

(** ** Two rescales in one render *)




(** ** The point-cloud viewer *)

Section PointCloudProperties.
Import PointCloudViewer.
Context {num : Type} `{Number num}.
Implicit Types (this : PointCloudViewer (num := num)) (env : Env (num := num)).

Lemma updateRenderer_frame this :
  canvas (updateRenderer this) = canvas this /\
  renderer (updateRenderer this) = renderer this /\
  scale (updateRenderer this) = scale this /\
  display (updateRenderer this) = display this.
Proof.
  unfold updateRenderer.
  destruct (canvas this) eqn:Hc, (renderer this) eqn:Hr; simpl; rewrite ?Hc, ?Hr; auto.
Qed.

Lemma canvas_invariant_handle env ev this :
  canvas_invariant this -> canvas_invariant (handle env ev this).
Proof.
  unfold canvas_invariant. intros [Hr Hn].
  destruct ev as [| |[c|]]; [| |destruct (String.eqb_spec (nodeName c) "CANVAS")|];
    unfold handle, redraw, initializeRefs, updateState, updateRenderer, renderThree;
    branches;
    repeat match goal with
           | H : (_ =? _)%string = true |- _ => apply String.eqb_eq in H
           | H : canvas _ = _ |- _ => progress rewrite H in *
           end;
    simpl in *; (split; [congruence|]); try exact Hn;
    intros c' [= <-]; auto; first [congruence|apply Hn; congruence].
Qed.

Lemma canvas_invariant_reachable this : reachable this -> canvas_invariant this.
Proof.
  induction 1 as [|env ev this _ IH].
  - split; [reflexivity|discriminate].
  - now apply canvas_invariant_handle.
Qed.

(** X22. In every state the point-cloud viewer reaches, either it holds no
    canvas and no renderer, or it holds a [<canvas>] element and the renderer
    that was created for that very element: the renderer never draws into
    another canvas than the one that is mounted. *)
Theorem renderer_follows_canvas this :
  reachable this ->
  (canvas this = None /\ renderer this = None) \/
  (exists c, canvas this = Some c /\ nodeName c = "CANVAS" /\
             renderer this = Some {| renderer_canvas := c |}).
Proof.
  intros Hreach. apply canvas_invariant_reachable in Hreach as [Hr Hn].
  destruct (canvas this) as [c|]; [right|left; auto].
  exists c. auto.
Qed.

(** X23. [redraw] of the point-cloud viewer, in any state it reaches.  It
    raises when the selected item does not exist and otherwise returns [true].
    It has the renderer draw exactly when the selected item is loaded, a canvas
    is mounted and the session holds a point cloud for the item; the renderer
    is then the one of the mounted canvas, and the scene it draws, and that the
    viewer is left with, consists of that point cloud alone (the sphere that
    marks the camera target, added by the constructor, is no longer in it). *)
Theorem redraw_renders_the_point_cloud env this :
  reachable this ->
  let item := select_item env in
  (nth_error (items_loaded env) item = None -> redraw env this = None) /\
  (forall loaded,
      nth_error (items_loaded env) item = Some loaded ->
      exists this' new,
        redraw env this = Some (true, this') /\
        calls this' = calls this ++ new /\
        forall r scene,
          In (renderer_render r scene) new <->
          exists c points,
            loaded = true /\ canvas this = Some c /\
            nth_error (Session_pointClouds env) item = Some points /\
            r = {| renderer_canvas := c |} /\ scene = [Cloud points] /\
            scene_children this' = [Cloud points]).
Proof.
  intros Hreach item. apply canvas_invariant_reachable in Hreach as [Hr _].
  unfold redraw. fold item. split; [now intros ->|].
  intros loaded ->. unfold updateRenderer, renderThree.
  destruct this as [d cv sc rn children pc cs]. simpl in Hr. subst rn.
  destruct loaded; simpl.
  - destruct cv as [c|]; simpl.
    + destruct (nth_error (Session_pointClouds env) item) as [points|];
        do 2 eexists; (split; [reflexivity|]); simpl; rewrite <- ?app_assoc;
        (split; [reflexivity|]); intros r scene; simpl; split.
      * intros [|[|[[= <- <-]|[]]]]; try discriminate. eauto 10.
      * intros (c' & points' & _ & [= <-] & [= <-] & -> & -> & _). auto.
      * intros [|[|[]]]; discriminate.
      * intros (c' & points' & _ & _ & Hp & _). discriminate Hp.
    + do 2 eexists. split; [reflexivity|]. split; [reflexivity|].
      intros r scene. simpl. split.
      * intros [|[]]; discriminate.
      * intros (c' & points' & _ & Hc' & _). discriminate Hc'.
  - do 2 eexists. split; [reflexivity|]. split; [reflexivity|].
    intros r scene. simpl. split.
    + intros [|[]]; discriminate.
    + intros (c' & points' & Hl & _). discriminate Hl.
Qed.

(** X24. The guards of [initializeRefs].  A [null] component and a component
    that is not a [<canvas>] change nothing.  For an image item, with a canvas
    and a display already held, a [viewScale] below [MIN_SCALE] or not below
    [MAX_SCALE] makes the method return at once: nothing changes, and a newly
    mounted element is not taken over.  The first mount, with no canvas held
    yet, does not rescale; and whenever [scale] does change, it is for an image
    item with a canvas and a display held and [viewScale] in range, and the
    new value is the one [updateCanvasScale] returned for the zoom ratio
    [viewScale / scale]. *)
Theorem initializeRefs_guards env component this :
  let this' := initializeRefs env component this in
  let v := config_viewScale env in
  (component = None -> this' = this) /\
  (forall c, component = Some c -> nodeName c <> "CANVAS" -> this' = this) /\
  (forall c old d,
      component = Some c -> nodeName c = "CANVAS" ->
      canvas this = Some old -> display this = Some d ->
      Session_itemType env = "image" ->
      ((v <? MIN_SCALE env) || (v >=? MAX_SCALE env))%num = true ->
      this' = this) /\
  (canvas this = None -> scale this' = scale this) /\
  (scale this' <> scale this ->
   exists c old d,
     component = Some c /\ nodeName c = "CANVAS" /\
     canvas this = Some old /\ display this = Some d /\
     Session_itemType env = "image" /\
     ((v <? MIN_SCALE env) || (v >=? MAX_SCALE env))%num = false /\
     scale this' = updateCanvasScale env d c v (v / scale this)%num).
Proof.
  cbn zeta. unfold initializeRefs. split; [|split; [|split; [|split]]].
  - now intros ->.
  - intros c -> Hname. apply String.eqb_neq in Hname. now rewrite Hname.
  - intros c old d -> Hname Hc Hd Htype Hout.
    apply String.eqb_eq in Hname, Htype. now rewrite Hname, Hc, Hd, Htype, Hout.
  - intros Hc. destruct this as [d cv sc rn children pc cs]. simpl in Hc. subst cv.
    destruct component as [c|]; [|reflexivity].
    destruct (String.eqb _ _); [|reflexivity]. simpl. unfold updateRenderer.
    destruct (isItemLoaded env); reflexivity.
  - intros Hchanged. destruct component as [c|]; [|now elim Hchanged].
    destruct (String.eqb_spec (nodeName c) "CANVAS") as [Hname|];
      [|now elim Hchanged].
    destruct this as [d cv sc rn children pc cs]. simpl in *.
    destruct cv as [old|], d as [d|];
      try (exfalso; apply Hchanged; unfold updateRenderer; simpl;
           repeat match goal with
                  | |- context [if ?b then _ else _] => destruct b; simpl
                  | |- context [match ?o with Some _ => _ | None => _ end] =>
                      destruct o; simpl
                  end; reflexivity).
    destruct (String.eqb_spec (Session_itemType env) "image") as [Htype|];
      [|exfalso; apply Hchanged; unfold updateRenderer; simpl;
        repeat match goal with
               | |- context [if ?b then _ else _] => destruct b; simpl
               | |- context [match ?o with Some _ => _ | None => _ end] =>
                   destruct o; simpl
               end; reflexivity].
    destruct (_ || _) eqn:Hrange; [now elim Hchanged|].
    exists c, old, d. repeat (split; [first [reflexivity|assumption]|]).
    unfold updateRenderer; simpl;
      repeat match goal with
             | |- context [if ?b then _ else _] => destruct b; simpl
             | |- context [match ?o with Some _ => _ | None => _ end] =>
                 destruct o; simpl
             end; reflexivity.
Qed.

End PointCloudProperties.

Lemma point_cloud_mounted_reachable {num} `{Number num} :
  PointCloudViewer.reachable (point_cloud_mounted (num := num)).
Proof. repeat constructor. Qed.

Lemma renderer_follows_canvas_witness :
  (PointCloudViewer.canvas (point_cloud_mounted (num := Q)) = None /\
   PointCloudViewer.renderer (point_cloud_mounted (num := Q)) = None) \/
  (exists c,
      PointCloudViewer.canvas (point_cloud_mounted (num := Q)) = Some c /\
      PointCloudViewer.nodeName c = "CANVAS"%string /\
      PointCloudViewer.renderer (point_cloud_mounted (num := Q))
      = Some {| PointCloudViewer.renderer_canvas := c |}).
Proof.
  exact (renderer_follows_canvas point_cloud_mounted point_cloud_mounted_reachable).
Defined.

Lemma redraw_renders_the_point_cloud_witness :
  exists this' new,
    PointCloudViewer.redraw point_cloud_session (point_cloud_mounted (num := Q))
    = Some (true, this') /\
    PointCloudViewer.calls this' = PointCloudViewer.calls point_cloud_mounted ++ new /\
    In (PointCloudViewer.renderer_render
          {| PointCloudViewer.renderer_canvas := point_cloud_canvas |}
          [PointCloudViewer.Cloud (PointCloudViewer.ThePoints 0)]) new.
Proof.
  destruct (proj2 (redraw_renders_the_point_cloud point_cloud_session
                     (point_cloud_mounted (num := Q)) point_cloud_mounted_reachable)
              true eq_refl) as (this' & new & Hredraw & Hcalls & Hrender).
  exists this', new. split; [exact Hredraw|]. split; [exact Hcalls|].
  apply Hrender. exists point_cloud_canvas, (PointCloudViewer.ThePoints 0).
  repeat split. revert Hredraw. vm_compute. now intros [= <-].
Defined.

Lemma initializeRefs_guards_witness :
  let env : PointCloudViewer.Env (num := Q) := point_cloud_session in
  PointCloudViewer.scale
    (PointCloudViewer.initializeRefs env (Some point_cloud_canvas)
       PointCloudViewer.constructor)
  = PointCloudViewer.scale (PointCloudViewer.constructor (num := Q)) /\
  PointCloudViewer.initializeRefs env
    (Some {| PointCloudViewer.nodeName := "DIV"; PointCloudViewer.element_id := 2 |})
    point_cloud_mounted
  = point_cloud_mounted.
Proof.
  cbv zeta. split.
  - exact (proj1 (proj2 (proj2 (proj2
             (initializeRefs_guards point_cloud_session (Some point_cloud_canvas)
                PointCloudViewer.constructor)))) eq_refl).
  - apply (proj1 (proj2 (initializeRefs_guards point_cloud_session
                           (Some {| PointCloudViewer.nodeName := "DIV";
                                    PointCloudViewer.element_id := 2 |})
                           point_cloud_mounted)) _ eq_refl).
    discriminate.
Defined.
